(** * vehicle_models_scraper: the acquisition, extraction and persistence
    pipeline of the Bama and Divar scrapers, embedded from
    [utils/helpers.py], [scrapers/bama_scraper.py],
    [scrapers/divar_scraper.py] and [config/settings.py]. *)

From Stdlib Require Import String Ascii QArith.
From stdpp Require Import gmap list sorting.

Local Open Scope Z_scope.

(** ** Python values *)

(** A Python [str] is a sequence of Unicode code points. *)
Abbreviation str := (list N).

(** An ASCII literal of the source. *)
Definition lit (s : string) : str :=
  (fun a => N_of_ascii a) <$> list_ascii_of_string s.

(** The tables of the Unicode database and of ECMAScript that the source
    reaches through [str.strip], [str.isdigit], [str.lower] and
    [String.prototype.trim]. *)
Class CharTables := {
  isspace : N -> bool;          (* str.isspace, per code point *)
  isdigit : N -> bool;          (* str.isdigit, per code point *)
  lower : str -> str;           (* str.lower *)
  js_isspace : N -> bool        (* WhiteSpace and LineTerminator of ECMAScript *)
}.

(** The tables restricted to ASCII, where they are a few lines long. *)
Definition ascii_isspace (c : N) : bool :=
  ((9 <=? c) && (c <=? 13) || (28 <=? c) && (c <=? 32))%N.
Definition ascii_isdigit (c : N) : bool := ((48 <=? c) && (c <=? 57))%N.
Definition ascii_lower_char (c : N) : N :=
  (if (65 <=? c) && (c <=? 90) then c + 32 else c)%N.
Definition ascii_js_isspace (c : N) : bool :=
  ((9 <=? c) && (c <=? 13) || (c =? 32))%N.
Definition ascii_tables : CharTables :=
  {| isspace := ascii_isspace;
     isdigit := ascii_isdigit;
     lower := fmap ascii_lower_char;
     js_isspace := ascii_js_isspace |}.

(** Exceptions. [except Exception] catches every class but the ones that
    derive from [BaseException] only ([KeyboardInterrupt],
    [asyncio.CancelledError], ...), which are [Interrupt] here. *)
Inductive exn :=
| KeyError (missing : list str)
| TypeError (msg : str)
| PWTimeout (msg : str)
| Error (msg : str)
| Interrupt.

Definition is_Exception (e : exn) : bool :=
  match e with Interrupt => false | _ => true end.

Inductive outcome (A : Type) :=
| Returns (a : A)
| Raises (e : exn).
Arguments Returns {A} a.
Arguments Raises {A} e.

(** ** [helpers.retry] *)

Inductive retry_event :=
| Invoked
| Warned (attempt max_attempts : Z) (e : exn)
| Slept (seconds : Q).

Definition invocations (tr : list retry_event) : nat :=
  length (omap (fun ev => match ev with Invoked => Some tt | _ => None end) tr).

Definition delays (tr : list retry_event) : list Q :=
  omap (fun ev => match ev with Slept d => Some d | _ => None end) tr.

Definition failures (tr : list retry_event) : list exn :=
  omap (fun ev => match ev with Warned _ _ e => Some e | _ => None end) tr.

(** [range(a, b)] *)
Definition range (a b : Z) : list Z := seqZ a (b - a).

Section retry.
(** The wrapped coroutine [func] acts on the world [W]; [sleep] is what
    the world does while [asyncio.sleep] waits. The delay is a rational
    number of seconds. *)
Context {W A : Type}.
Variable sleep : Q -> W -> W.
Variable max_attempts : Z.
Variable delay : Q.
Variable func : W -> outcome A * W.

Definition raise_last (last_exc : option exn) : outcome A :=
  match last_exc with
  | Some e => Raises e
  | None => Raises (TypeError (lit "exceptions must derive from BaseException"))
  end.

Fixpoint retry_loop (attempts : list Z) (last_exc : option exn) (w : W)
  : outcome A * list retry_event * W :=
  match attempts with
  | [] => (raise_last last_exc, [], w)
  | attempt :: rest =>
      match func w with
      | (Returns a, w1) => (Returns a, [Invoked], w1)
      | (Raises e, w1) =>
          if is_Exception e then
            if attempt <? max_attempts then
              let '(o, tr, w2) :=
                retry_loop rest (Some e) (sleep (delay * inject_Z attempt) w1) in
              (o, Invoked :: Warned attempt max_attempts e
                    :: Slept (delay * inject_Z attempt) :: tr, w2)
            else
              let '(o, tr, w2) := retry_loop rest (Some e) w1 in
              (o, Invoked :: Warned attempt max_attempts e :: tr, w2)
          else (Raises e, [Invoked], w1)
      end
  end.

(** The coroutine that [retry(max_attempts, delay)(func)] returns. *)
Definition wrapper (w : W) : outcome A * list retry_event * W :=
  retry_loop (range 1 (max_attempts + 1)) None w.

(** The world after the pause that follows a failed [attempt]. *)
Definition after_failure (attempt : Z) (w : W) : W :=
  if attempt <? max_attempts then sleep (delay * inject_Z attempt) w else w.

(** [func] raises the exceptions [es], one at each of [attempts], when the
    run starts in [w]; it leaves the world in [w_end]. *)
Inductive fails_each : list Z -> W -> list exn -> W -> Prop :=
| fails_none w : fails_each [] w [] w
| fails_more attempt rest w e w1 es w_end :
    func w = (Raises e, w1) ->
    is_Exception e = true ->
    fails_each rest (after_failure attempt w1) es w_end ->
    fails_each (attempt :: rest) w (e :: es) w_end.
End retry.

Definition retry {W A : Type} (sleep : Q -> W -> W) (max_attempts : Z) (delay : Q)
    (func : W -> outcome A * W) : W -> outcome A * list retry_event * W :=
  wrapper sleep max_attempts delay func.

(** ** The content-reveal loops *)

(** [bama_scraper.scroll_and_load]. [height k] is what
    [document.body.scrollHeight] evaluates to in round [k], every call on
    the page returning; the result is the list of the rounds performed,
    each with the height it logged. *)
Section reveal.
Variable height : nat -> Z.

Fixpoint scroll_loop (rounds : list nat) (prev_height stable_rounds : Z)
  : list (nat * Z) :=
  match rounds with
  | [] => []
  | round_num :: rest =>
      let cur_height := height round_num in
      (round_num, cur_height) ::
      if cur_height =? prev_height then
        let stable_rounds := stable_rounds + 1 in
        if 3 <=? stable_rounds then []
        else scroll_loop rest cur_height stable_rounds
      else scroll_loop rest cur_height 0
  end.

Definition max_rounds : nat := 50.

Definition scroll_and_load : list (nat * Z) :=
  scroll_loop (seq 1 max_rounds) 0 0.

(** What [prev_height] holds when round [k] measures the page. *)
Definition prev_height_at (k : nat) : Z :=
  match k with
  | O | 1%nat => 0
  | S k' => height k'
  end.

(** Round [k] saw the height of the round before it. *)
Definition unchanged (k : nat) : bool := height k =? prev_height_at k.

(** The number of consecutive unchanged rounds that end with round [k]. *)
Fixpoint streak (k : nat) : nat :=
  match k with
  | O => 0
  | S k' => if unchanged k then S (streak k') else 0
  end.
End reveal.

(** The scroll loop of [divar_scraper.scrape]: [count i] is the number of
    cards counted in iteration [i] of [range(15)]. *)
Definition divar_scroll (count : nat -> Z) : list (nat * Z) :=
  (fun i => (S i, count i)) <$> seq 0 15.

(** ** [config/settings.py] *)

Definition BROWSER_FALLBACK : list str := [lit "chromium"; lit "firefox"].
Definition CLOUDFLARE_TITLE : str := lit "Cloudflare".
Definition ANTI_BOT_PHRASES : list str :=
  [lit "just a moment"; lit "checking your browser"].
Definition BACKUP_ENABLED : bool := true.

(** ** [helpers.launch_browser_with_fallback] *)

(** [s.startswith(p)] *)
Fixpoint startswith (s p : str) {struct p} : bool :=
  match p, s with
  | [], _ => true
  | c :: p', d :: s' => (c =? d)%N && startswith s' p'
  | _ :: _, [] => false
  end.

(** [needle in hay] *)
Fixpoint contains (needle hay : str) : bool :=
  startswith hay needle
  || match hay with
     | [] => false
     | _ :: hay' => contains needle hay'
     end.

(** [needle] occurs in [hay] as a substring. *)
Definition substring (needle hay : str) : Prop :=
  exists pre post, hay = pre ++ needle ++ post.

Inductive verdict := OK | BLOCKED.

Inductive resource := Page | Context | Browser.

Inductive launch_event :=
| Created (r : resource) (engine : str)
| Failed (engine : str) (e : exn)
| Closed (r : resource) (engine : str)
| Passed (engine : str).

(** What one engine of the Playwright object does at each awaited call of
    the [try] block and of its handler: [Some e] when the call raises [e]. *)
Record engine_env := {
  launch : option exn;
  new_context : option exn;
  new_page : option exn;
  add_init_script : option exn;
  wait_for_timeout : option exn;
  goto : option exn;
  title : outcome str;
  text_content : outcome (option str);
  page_close : option exn;
  context_close : option exn;
  browser_close : option exn
}.

(** The variables [browser], [context] and [page] of one iteration: [true]
    once assigned. *)
Record handles := { browser : bool; context : bool; page : bool }.

Section acquisition.
Context `{CharTables}.

(** The two [any(...)] tests, on the title and on the lowered body. *)
Definition anti_bot_check (title body : str) : option exn :=
  if existsb (fun phrase => contains phrase (lower title))
             ([lower CLOUDFLARE_TITLE] ++ ANTI_BOT_PHRASES)
  then Some (PWTimeout (lit "Anti-bot detected (title)"))
  else if existsb (fun phrase => contains phrase body) ANTI_BOT_PHRASES
  then Some (PWTimeout (lit "Anti-bot detected (body)"))
  else None.

(** How the page that [title] and [text_content("body")] describe is
    classified. *)
Definition classify (title : str) (text_content : option str) : verdict :=
  match anti_bot_check title (lower (default [] text_content)) with
  | Some _ => BLOCKED
  | None => OK
  end.

(** The [try] block for one engine: the handles it had assigned when it
    ended, and the exception it ended with, if any. *)
Definition attempt (E : engine_env) : handles * option exn :=
  let h0 := {| browser := false; context := false; page := false |} in
  let h1 := {| browser := true; context := false; page := false |} in
  let h2 := {| browser := true; context := true; page := false |} in
  let h3 := {| browser := true; context := true; page := true |} in
  match launch E with Some e => (h0, Some e) | None =>
  match new_context E with Some e => (h1, Some e) | None =>
  match new_page E with Some e => (h2, Some e) | None =>
  match add_init_script E with Some e => (h3, Some e) | None =>
  match wait_for_timeout E with Some e => (h3, Some e) | None =>
  match goto E with Some e => (h3, Some e) | None =>
  match title E with Raises e => (h3, Some e) | Returns t =>
  match text_content E with Raises e => (h3, Some e) | Returns b =>
    (h3, anti_bot_check t (lower (default [] b)))
  end end end end end end end end.

Definition created (engine : str) (h : handles) : list launch_event :=
  (if browser h then [Created Browser engine] else [])
  ++ (if context h then [Created Context engine] else [])
  ++ (if page h then [Created Page engine] else []).

(** One [if x: await x.close()] of the handler, followed by [rest]. *)
Definition close_then (held : bool) (close : option exn) (ev : launch_event)
    (rest : list launch_event * option exn) : list launch_event * option exn :=
  if held then
    match close with
    | Some e => ([], Some e)
    | None => (ev :: rest.1, rest.2)
    end
  else rest.

(** The body of [except Exception]: the closes it performed and the
    exception that escaped it, if any. *)
Definition handler (engine : str) (E : engine_env) (h : handles)
  : list launch_event * option exn :=
  close_then (page h) (page_close E) (Closed Page engine)
    (close_then (context h) (context_close E) (Closed Context engine)
       (close_then (browser h) (browser_close E) (Closed Browser engine)
          ([], None))).

(** The [for] loop over the engines; [p] is the Playwright object. The
    result [Some engine] stands for the page and context of that engine,
    [None] for [(None, None)]. *)
Fixpoint launch_loop (p : str -> engine_env) (engines : list str)
  : outcome (option str) * list launch_event :=
  match engines with
  | [] => (Returns None, [])
  | browser_type :: rest =>
      let '(h, res) := attempt (p browser_type) in
      match res with
      | None => (Returns (Some browser_type),
                 created browser_type h ++ [Passed browser_type])
      | Some e =>
          if is_Exception e then
            match handler browser_type (p browser_type) h with
            | (closes, Some e') =>
                (Raises e',
                 created browser_type h ++ Failed browser_type e :: closes)
            | (closes, None) =>
                let '(o, tr) := launch_loop p rest in
                (o, created browser_type h ++ Failed browser_type e :: closes ++ tr)
            end
          else (Raises e, created browser_type h)
      end
  end.

Definition launch_browser_with_fallback (p : str -> engine_env)
  : outcome (option str) * list launch_event :=
  launch_loop p BROWSER_FALLBACK.

(** The closes of every assigned handle, page first. *)
Definition closes_of (engine : str) (h : handles) : list launch_event :=
  (if page h then [Closed Page engine] else [])
  ++ (if context h then [Closed Context engine] else [])
  ++ (if browser h then [Closed Browser engine] else []).

(** An anti-bot phrase occurs in [text], letter case apart. *)
Definition has_anti_bot_phrase (text : str) : Prop :=
  exists phrase, phrase ∈ ANTI_BOT_PHRASES
                 /\ substring (lower phrase) (lower text).

(** The engine fails with an [Exception] (a block included) and none of
    the closes of its handler raises. *)
Definition fails_cleanly (p : str -> engine_env) (engine : str) : Prop :=
  exists h e, attempt (p engine) = (h, Some e)
              /\ is_Exception e = true
              /\ (handler engine (p engine) h).2 = None.
End acquisition.

(** ** Records and data frames *)

(** One record of a batch: a [dict] from field names to text, as the list
    of its items in insertion order, each key once. *)
Abbreviation record := (list (str * str)).

(** [d.get(key)] *)
Fixpoint dict_get (key : str) (d : record) : option str :=
  match d with
  | [] => None
  | (k, v) :: d' => if decide (k = key) then Some v else dict_get key d'
  end.

(** The elements of [l] whose [key] is not in [seen] and was not met
    before, in order: the first of every group. *)
Fixpoint keep_first {A K : Type} `{EqDecision K} (key : A -> K)
    (seen : list K) (l : list A) : list A :=
  match l with
  | [] => []
  | x :: l' =>
      if decide (key x ∈ seen) then keep_first key seen l'
      else x :: keep_first key (key x :: seen) l'
  end.

(** A [pandas.DataFrame] built from records: its columns, and for each
    row the record it came from; a cell is [dict_get column row], [None]
    being the missing value NaN. *)
Record frame := { columns : list str; rows : list record }.

(** [pd.DataFrame(data)]: the columns are the keys of the records in the
    order in which they first appear. *)
Definition DataFrame (data : list record) : frame :=
  {| columns := keep_first id [] (concat (map (map fst) data));
     rows := data |}.

(** [df.empty] *)
Definition empty (df : frame) : bool :=
  match columns df, rows df with
  | [], _ | _, [] => true
  | _, _ => false
  end.

(** The cells of a row under the columns [subset]. *)
Definition cells (subset : list str) (r : record) : list (option str) :=
  (fun c => dict_get c r) <$> subset.

(** [df.drop_duplicates(subset=subset)], which keeps the first row of
    every group of equal cells; an empty frame is returned as it is,
    before the columns are looked at. *)
Definition drop_duplicates (subset : list str) (df : frame) : outcome frame :=
  if empty df then Returns df
  else
    match List.filter (fun c => bool_decide (c ∉ columns df)) subset with
    | [] => Returns {| columns := columns df;
                       rows := keep_first (cells subset) [] (rows df) |}
    | missing => Raises (KeyError missing)
    end.

(** Python's order on [str]: lexicographic on code points. *)
Fixpoint str_leb (a b : str) : bool :=
  match a, b with
  | [], _ => true
  | _ :: _, [] => false
  | c :: a', d :: b' => (c <? d)%N || ((c =? d)%N && str_leb a' b')
  end.

(** The order [sort_values] puts cells in: text ascending, NaN last. *)
Definition cell_leb (a b : option str) : bool :=
  match a, b with
  | _, None => true
  | None, Some _ => false
  | Some x, Some y => str_leb x y
  end.

Definition row_le (by_ : str) (r1 r2 : record) : Prop :=
  cell_leb (dict_get by_ r1) (dict_get by_ r2) = true.

#[global] Instance row_le_dec (by_ : str) : RelDecision (row_le by_).
Proof. intros r1 r2. unfold row_le. apply _. Defined.

(** [df.sort_values(by)]. Among rows with equal cells the order pandas
    gives is that of its sorting algorithm; this one keeps them as they
    were. *)
Definition sort_values (by_ : str) (df : frame) : outcome frame :=
  if decide (by_ ∈ columns df)
  then Returns {| columns := columns df;
                  rows := merge_sort (row_le by_) (rows df) |}
  else Raises (KeyError [by_]).

Definition bind {A B : Type} (o : outcome A) (k : A -> outcome B) : outcome B :=
  match o with
  | Returns a => k a
  | Raises e => Raises e
  end.

(** ** [helpers.save_to_csv] *)

(** A file as [to_csv(index=False, encoding=...)] writes it: the header
    row and the data rows, a missing value written as the empty field. *)
Record csv_file := {
  encoding : str;
  header : list str;
  body : list (list str)
}.

Definition to_csv (df : frame) (encoding : str) : csv_file :=
  {| encoding := encoding;
     header := columns df;
     body := (fun r => (fun c => default [] (dict_get c r)) <$> columns df)
             <$> rows df |}.

(** The part of the file system the function touches. Failures of the
    operating system (a directory that cannot be written) are not
    modelled. *)
Record file_system := {
  dirs : gset str;
  files : gmap str csv_file
}.

Definition makedirs (dir : str) (fs : file_system) : file_system :=
  {| dirs := {[dir]} ∪ dirs fs; files := files fs |}.

Definition write (path : str) (f : csv_file) (fs : file_system) : file_system :=
  {| dirs := dirs fs; files := <[path := f]> (files fs) |}.

(** [Path(dir) / name] *)
Definition path_join (dir name : str) : str := dir ++ lit "/" ++ name.

Definition DEDUP_KEY : list str :=
  [lit "model"; lit "year"; lit "mileage"; lit "price"; lit "source_url"].

(** The frame that is written: line 74. *)
Definition deduplicated (data : list record) : outcome frame :=
  bind (drop_duplicates DEDUP_KEY (DataFrame data)) (sort_values (lit "model")).

Definition primary_path (prefix output_dir today : str) : str :=
  path_join output_dir (prefix ++ lit "_" ++ today ++ lit ".csv").

Definition backup_path (prefix today : str) : str :=
  path_join (lit "backups") (prefix ++ lit "_" ++ today ++ lit "_backup.csv").

(** [today] is what [datetime.now().strftime("%Y-%m-%d")] gives during
    the call. The result [Returns None] is the warning of the empty
    batch, [Returns (Some path)] the path of the primary file. *)
Definition save_to_csv (data : list record) (prefix output_dir today : str)
    (fs : file_system) : outcome (option str) * file_system :=
  match data with
  | [] => (Returns None, fs)
  | _ :: _ =>
      match deduplicated data with
      | Raises e => (Raises e, fs)
      | Returns df =>
          let filepath := primary_path prefix output_dir today in
          let fs := makedirs output_dir fs in
          let fs := write filepath (to_csv df (lit "utf-8-sig")) fs in
          let fs :=
            if BACKUP_ENABLED then
              let fs := makedirs (lit "backups") fs in
              write (backup_path prefix today) (to_csv df (lit "utf-8-sig")) fs
            else fs in
          (Returns (Some filepath), fs)
      end
  end.

(** The file system after a call that wrote the frame [df]. *)
Definition saved (df : frame) (prefix output_dir today : str) (fs : file_system)
  : file_system :=
  write (backup_path prefix today) (to_csv df (lit "utf-8-sig"))
    (makedirs (lit "backups")
       (write (primary_path prefix output_dir today) (to_csv df (lit "utf-8-sig"))
          (makedirs output_dir fs))).

(** ** The extraction mappers *)

(** The negotiable sentinel, U+062A U+0648 U+0627 U+0641 U+0642 U+06CC. *)
Definition NEGOTIABLE : str := [0x62A; 0x648; 0x627; 0x641; 0x642; 0x6CC]%N.

Fixpoint drop_while (f : N -> bool) (s : str) : str :=
  match s with
  | [] => []
  | c :: s' => if f c then drop_while f s' else s
  end.

(** The text without the leading and trailing characters that [f] holds of. *)
Definition strip_with (f : N -> bool) (s : str) : str :=
  reverse (drop_while f (reverse (drop_while f s))).

(** [sep.join(parts)] *)
Fixpoint join (sep : str) (parts : list str) : str :=
  match parts with
  | [] => []
  | [x] => x
  | x :: rest => x ++ sep ++ join sep rest
  end.

(** The truth value of a [str]. *)
Definition truthy (s : str) : bool :=
  match s with [] => false | _ :: _ => true end.

(** [a or b] on text *)
Definition or_else (a b : str) : str := if truthy a then a else b.

(** What the DOM queries on one Bama card return: for [link_elem] its
    [title] and [href] attributes, for the other elements their
    [inner_text]. *)
Record bama_card := {
  link_elem : option (option str * option str);
  year_elem : option str;
  mileage_elems : list str;
  desc_elem : option str;
  price_elem : option str;
  negotiable_elem : option str
}.

(** A card whose queries all return, or one on which some call raises. *)
Inductive card_result :=
| Card (c : bama_card)
| CardRaises (e : exn).

(** What [page.evaluate] finds in one Divar card: the [innerText] of its
    title element, if there is one, and of its description elements. *)
Record divar_card := {
  card_title : option str;
  descs : list str
}.

Definition DIVAR_URL : str := lit "https://divar.ir/s/tehran/car".

Section mappers.
Context `{CharTables}.

(** [s.strip()] *)
Definition strip (s : str) : str := strip_with isspace s.

(** [bama_scraper.clean_price] *)
Definition clean_price (text : str) : str :=
  if truthy text then List.filter isdigit text else [].

(** The body of the [try] of one card of [bama_scraper.scrape]: the
    record it appends, if any. *)
Definition bama_record (today : str) (c : bama_card) : option record :=
  match link_elem c with
  | None => None
  | Some (title_attr, href_attr) =>
      let model := strip (default [] title_attr) in
      let ad_url :=
        match href_attr with
        | Some u =>
            if truthy u && negb (startswith u (lit "http"))
            then Some (lit "https://bama.ir" ++ u) else Some u
        | None => None
        end in
      let year := match year_elem c with Some t => strip t | None => [] end in
      let mileage := strip (join (lit " ") (mileage_elems c)) in
      let description :=
        match desc_elem c with Some t => strip t | None => [] end in
      let priced :=
        match price_elem c, negotiable_elem c with
        | Some price_raw, _ => Some (clean_price price_raw, lit "fixed")
        | None, Some price_raw =>
            Some (or_else (clean_price price_raw) NEGOTIABLE, lit "negotiable")
        | None, None => None
        end in
      match priced with
      | None => None
      | Some (price, price_status) =>
          if truthy model
             && (truthy price || bool_decide (price_status = lit "negotiable"))
          then Some [(lit "model", model);
                     (lit "year", year);
                     (lit "mileage", mileage);
                     (lit "description", description);
                     (lit "price", price);
                     (lit "price_status", price_status);
                     (lit "source_url", default [] ad_url);
                     (lit "scrape_date", today)]
          else None
      end
  end.

(** The loop over the cards: a card on which a call raises an
    [Exception] is skipped. *)
Fixpoint bama_extract (today : str) (cards : list card_result)
    (all_data : list record) : outcome (list record) :=
  match cards with
  | [] => Returns all_data
  | Card c :: rest =>
      bama_extract today rest (all_data ++ option_list (bama_record today c))
  | CardRaises e :: rest =>
      if is_Exception e then bama_extract today rest all_data else Raises e
  end.

(** [s.trim()] of JavaScript *)
Definition trim (s : str) : str := strip_with js_isspace s.

(** [s.replace(/[^\d]/g, '')]: [\d] is an ASCII digit. *)
Definition js_digits (s : str) : str := List.filter ascii_isdigit s.

(** The function mapped over the cards inside [page.evaluate]: [None]
    is [null], which the [filter] that follows removes. *)
Definition divar_item (c : divar_card) : option (str * str * str) :=
  match card_title c, descs c with
  | Some t, d0 :: d1 :: _ =>
      Some (trim t, trim d0, or_else (js_digits (trim d1)) NEGOTIABLE)
  | _, _ => None
  end.

(** The records that [divar_scraper.scrape] appends to [all_data]. *)
Definition divar_extract (today : str) (cards : list divar_card) : list record :=
  (fun '(model, mileage, price) =>
     [(lit "model", model);
      (lit "mileage", mileage);
      (lit "price", price);
      (lit "source_url", DIVAR_URL);
      (lit "scrape_date", today)])
  <$> omap divar_item cards.

(** [if all_data: save_to_csv(all_data, prefix)] of either scraper:
    [save_to_csv] itself warns and returns on an empty batch. *)
Definition save_batch (all_data : list record) (prefix today : str)
    (fs : file_system) : outcome (option str) * file_system :=
  if bool_decide (all_data = []) then (Returns None, fs)
  else save_to_csv all_data prefix (lit "output") today fs.
End mappers.

(** A record has a model, and it is not the empty text. *)
Definition has_model (r : record) : Prop :=
  exists model, dict_get (lit "model") r = Some model /\ model <> [].

(** ** Concrete inputs *)

Definition day : str := lit "2025-11-10".

Definition peugeot : record :=
  [(lit "model", lit "Peugeot 206");
   (lit "year", lit "1398");
   (lit "mileage", lit "50,000");
   (lit "description", []);
   (lit "price", lit "150000000");
   (lit "price_status", lit "fixed");
   (lit "source_url", lit "https://bama.ir/a");
   (lit "scrape_date", day)].

(** The same listing with another description. *)
Definition peugeot_again : record :=
  [(lit "model", lit "Peugeot 206");
   (lit "year", lit "1398");
   (lit "mileage", lit "50,000");
   (lit "description", lit "one owner");
   (lit "price", lit "150000000");
   (lit "price_status", lit "fixed");
   (lit "source_url", lit "https://bama.ir/a");
   (lit "scrape_date", day)].

(** A record of the shape the Divar extractor builds. *)
Definition pride : record :=
  [(lit "model", lit "Pride 131");
   (lit "mileage", lit "90,000");
   (lit "price", NEGOTIABLE);
   (lit "source_url", DIVAR_URL);
   (lit "scrape_date", day)].

Definition no_files : file_system := {| dirs := ∅; files := ∅ |}.

Definition peugeot_card : bama_card :=
  {| link_elem := Some (Some (lit " Peugeot 206 "), Some (lit "/car/detail-a"));
     year_elem := Some (lit "1398");
     mileage_elems := [lit "50,000"; lit "km"];
     desc_elem := None;
     price_elem := Some (lit "150,000,000");
     negotiable_elem := None |}.

Definition peugeot_batch : list record :=
  Eval vm_compute in
    match @bama_extract ascii_tables day [Card peugeot_card] [] with
    | Returns batch => batch
    | Raises _ => []
    end.

(** An engine that navigates and lands on a page with the given title and
    body; [close] is what closing the page does. *)
Definition landing (t : str) (b : str) (close : option exn) : engine_env :=
  {| launch := None; new_context := None; new_page := None;
     add_init_script := None; wait_for_timeout := None; goto := None;
     title := Returns t; text_content := Returns (Some b);
     page_close := close; context_close := None; browser_close := None |}.

Definition challenge_page (close : option exn) : engine_env :=
  landing (lit "Just a moment...") (lit "Checking your browser") close.

(** A wrapped operation that fails twice and then returns the number of
    calls made before; the world is that number. *)
Definition flaky (calls : nat) : outcome nat * nat :=
  if (calls <? 2)%nat then (Raises (Error (lit "timeout")), S calls)
  else (Returns calls, S calls).

Definition always_failing (calls : nat) : outcome nat * nat :=
  (Raises (Error (lit "timeout")), S calls).

Definition no_effect (seconds : Q) (calls : nat) : nat := calls.

(** ** The trace of a session acquisition *)

(** The handles assigned in [h], in the order in which the [try] block
    assigns them. *)
Definition resources_of (h : handles) : list resource :=
  (if browser h then [Browser] else [])
  ++ (if context h then [Context] else [])
  ++ (if page h then [Page] else []).

(** What an engine that failed with [e], holding [h], leaves in the trace:
    its handles created, the warning, the same handles closed in the
    reverse order. *)
Definition failed_block (f : str * handles * exn) : list launch_event :=
  let '(engine, h, e) := f in
  ((fun r => Created r engine) <$> resources_of h)
  ++ Failed engine e
  :: ((fun r => Closed r engine) <$> reverse (resources_of h)).

Definition all_handles : handles :=
  {| browser := true; context := true; page := true |}.

(** ** What the mappers keep *)

(** [s] neither starts nor ends with a character that [f] holds of. *)
Definition stripped (f : N -> bool) (s : str) : Prop :=
  (forall c, head s = Some c -> f c = false)
  /\ (forall c, last s = Some c -> f c = false).

Definition all_digits (f : N -> bool) (s : str) : Prop :=
  Forall (fun c => f c = true) s.

(** The record that one card of the Bama loop contributes. *)
Definition card_record `{CharTables} (today : str) (cr : card_result)
    : option record :=
  match cr with
  | Card c => bama_record today c
  | CardRaises _ => None
  end.

(** The keys of the dict literal that [bama_scraper.scrape] appends. *)
Definition BAMA_FIELDS : list str :=
  [lit "model"; lit "year"; lit "mileage"; lit "description"; lit "price";
   lit "price_status"; lit "source_url"; lit "scrape_date"].

(** ** [bama_scraper.scrape] and [divar_scraper.scrape] *)

Inductive scrape_event :=
| Acquired (tr : list launch_event)   (* what launch_browser_with_fallback did *)
| Swallowed (e : exn)                 (* logger.exception of except Exception *)
| BrowserClosed                       (* the close of the finally block *)
| Summary (vehicles : nat).           (* the closing print, Vehicles saved : n *)

(** How the block under [async with] is left: by running to its end with
    [all_data] as it then is, by the [return] of the missing session, or
    by an exception. *)
Inductive block_exit :=
| FallsThrough (all_data : list record)
| Returned
| Raised (e : exn).

(** [try: body / except Exception as e: logger.exception / finally: close]
    where [body] ended with [all_data], the exception [exc] if any, and
    the file system [fs]. *)
Definition guarded (body : list record * option exn * file_system)
    (close : option exn) : block_exit * list scrape_event * file_system :=
  let '(all_data, exc, fs) := body in
  match exc with
  | None =>
      match close with
      | Some e' => (Raised e', [], fs)
      | None => (FallsThrough all_data, [BrowserClosed], fs)
      end
  | Some e =>
      if is_Exception e then
        match close with
        | Some e' => (Raised e', [Swallowed e], fs)
        | None => (FallsThrough all_data, [Swallowed e; BrowserClosed], fs)
        end
      else
        match close with
        | Some e' => (Raised e', [], fs)
        | None => (Raised e, [BrowserClosed], fs)
        end
  end.

(** Leaving [async with async_playwright()], whose exit raises [stop] if
    anything, and the summary printed after it. *)
Definition leave (stop : option exn)
    (block : block_exit * list scrape_event * file_system)
    : outcome unit * list scrape_event * file_system :=
  let '(exit, evs, fs) := block in
  match stop with
  | Some e' => (Raises e', evs, fs)
  | None =>
      match exit with
      | Raised e => (Raises e, evs, fs)
      | Returned => (Returns tt, evs, fs)
      | FallsThrough all_data => (Returns tt, evs ++ [Summary (length all_data)], fs)
      end
  end.

(** What one run of [bama_scraper.scrape] meets: what entering and
    leaving [async_playwright()] raise, the Playwright object, what the
    second [page.goto] and [scroll_and_load] raise, what
    [query_selector_all] and the queries on the cards give, what closing
    the browser raises, and the day. *)
Record bama_env := {
  bama_start : option exn;
  bama_stop : option exn;
  bama_p : str -> engine_env;
  bama_goto : option exn;
  bama_reveal : option exn;
  bama_cards : outcome (list card_result);
  bama_close : option exn;
  bama_today : str
}.


Section scrapers.
Context `{CharTables}.

(** The [try] block of [bama_scraper.scrape]. After an exception of the
    card loop [all_data] is not read again. *)
Definition bama_try (E : bama_env) (fs : file_system)
    : list record * option exn * file_system :=
  match bama_goto E with Some e => ([], Some e, fs) | None =>
  match bama_reveal E with Some e => ([], Some e, fs) | None =>
  match bama_cards E with Raises e => ([], Some e, fs) | Returns cards =>
  match bama_extract (bama_today E) cards [] with
  | Raises e => ([], Some e, fs)
  | Returns all_data =>
      match save_batch all_data (lit "bama") (bama_today E) fs with
      | (Raises e, fs') => (all_data, Some e, fs')
      | (Returns _, fs') => (all_data, None, fs')
      end
  end end end end.

(** The body of [bama_scraper.scrape], under its decorator. *)
Definition bama_scrape_body (E : bama_env) (fs : file_system)
    : outcome unit * list scrape_event * file_system :=
  match bama_start E with
  | Some e => (Raises e, [], fs)
  | None =>
      let '(session, ltr) := launch_browser_with_fallback (bama_p E) in
      let '(exit, evs, fs1) :=
        match session with
        | Raises e => (Raised e, [], fs)
        | Returns None => (Returned, [], fs)
        | Returns (Some _) => guarded (bama_try E fs) (bama_close E)
        end in
      leave (bama_stop E) (exit, Acquired ltr :: evs, fs1)
  end.







End scrapers.

(** ** The runners: [cli_menu.py], [run_all.py] and [scheduler.py] *)

Section runners.
(** A scraper, to its runner, is the import of its module and the await of
    its [scrape()], acting on a world [W]. *)
Context {W : Type}.

(** [cli_menu.run_scraper] *)
Definition run_scraper (scraper : W -> outcome unit * W) (w : W)
    : outcome unit * W :=
  match scraper w with
  | (Returns _, w') => (Returns tt, w')
  | (Raises e, w') => if is_Exception e then (Returns tt, w') else (Raises e, w')
  end.

(** [cli_menu.run_all] over [SCRAPERS] *)
Fixpoint run_all (scrapers : list (W -> outcome unit * W)) (w : W)
    : outcome unit * W :=
  match scrapers with
  | [] => (Returns tt, w)
  | s :: rest =>
      match run_scraper s w with
      | (Returns _, w') => run_all rest w'
      | (Raises e, w') => (Raises e, w')
      end
  end.

(** [scheduler.daily_job], and [run_all.main] with the same two awaits. *)
Definition daily_job (scrape_bama scrape_divar : W -> outcome unit * W) (w : W)
    : outcome unit * W :=
  match scrape_bama w with
  | (Returns _, w') => scrape_divar w'
  | (Raises e, w') => (Raises e, w')
  end.
End runners.

(** A naive [datetime]: the ordinal of its date and its time of day. Dates
    past the year 9999, where adding a day overflows, are left out. *)
Record datetime := {
  ordinal : Z;
  hour : Z;
  minute : Z;
  second : Z;
  microsecond : Z
}.

Definition valid_time (d : datetime) : Prop :=
  0 <= hour d < 24 /\ 0 <= minute d < 60 /\ 0 <= second d < 60
  /\ 0 <= microsecond d < 1000000.

(** [a < b] on datetimes: field by field, the date first. *)
Definition datetime_ltb (a b : datetime) : bool :=
  (ordinal a <? ordinal b)
  || (ordinal a =? ordinal b)
     && ((hour a <? hour b)
         || (hour a =? hour b)
            && ((minute a <? minute b)
                || (minute a =? minute b)
                   && ((second a <? second b)
                       || (second a =? second b)
                          && (microsecond a <? microsecond b)))).

(** The microseconds from the start of day 0. *)
Definition micros (d : datetime) : Z :=
  (((ordinal d * 24 + hour d) * 60 + minute d) * 60 + second d) * 1000000
  + microsecond d.

Definition DAILY_RUN_HOUR : Z := 2.
Definition DAILY_RUN_MINUTE : Z := 0.

(** The run that [scheduler.main] announces; [now1] and [now2] are its two
    readings of [datetime.now()]. *)
Definition next_run (now1 now2 : datetime) : datetime :=
  let next_run :=
    {| ordinal := ordinal now1; hour := DAILY_RUN_HOUR; minute := DAILY_RUN_MINUTE;
       second := 0; microsecond := 0 |} in
  if datetime_ltb next_run now2
  then {| ordinal := ordinal next_run + 1; hour := hour next_run;
          minute := minute next_run; second := second next_run;
          microsecond := microsecond next_run |}
  else next_run.

(** ** More concrete inputs *)

(** A card on which a query raises. *)
Definition detached_card : card_result := CardRaises (Error (lit "element detached")).


(** A run in which chromium passes, the only card is skipped and the
    closing [browser.close()] raises. *)
Definition bama_close_fails : bama_env :=
  {| bama_start := None; bama_stop := None;
     bama_p := fun _ => landing (lit "Bama") (lit "cars") None;
     bama_goto := None; bama_reveal := None;
     bama_cards := Returns [detached_card];
     bama_close := Some (Error (lit "Target closed")); bama_today := day |}.

Definition pride_card : divar_card :=
  {| card_title := Some (lit "Pride 131");
     descs := [lit "90,000 km"; lit "negotiable"] |}.


(** Two scrapers for a runner, on a world that counts the awaits. *)
Definition crashing_scraper (awaited : nat) : outcome unit * nat :=
  (Raises (Error (lit "import failed")), S awaited).

Definition quiet_scraper (awaited : nat) : outcome unit * nat :=
  (Returns tt, S awaited).

(** 14:30:05.000250 on some day. *)
Definition afternoon : datetime :=
  {| ordinal := 739565; hour := 14; minute := 30; second := 5; microsecond := 250 |}.

(** * Theorems *)

(** ** The retry wrapper *)

Section retry_facts.
Context {W A : Type}.
Variable func : W -> outcome A * W.
Variable sleep : Q -> W -> W.

Lemma range_length (a b : Z) : length (range a b) = Z.to_nat (b - a).
Proof. unfold range. by rewrite length_seqZ. Qed.

(** A run in which every attempt fails: the loop invokes [func] once per
    attempt, sleeps after the attempts below [max_attempts], and raises
    the failure of the last attempt. *)
Lemma retry_loop_fails_each max_attempts delay attempts last_exc w es w_end :
  fails_each sleep max_attempts delay func attempts w es w_end ->
  retry_loop sleep max_attempts delay func attempts last_exc w =
    (raise_last (from_option Some last_exc (last es)),
     flat_map (fun '(attempt, e) =>
                 Invoked :: Warned attempt max_attempts e ::
                 (if attempt <? max_attempts
                  then [Slept (delay * inject_Z attempt)] else []))
              (zip attempts es),
     w_end).
Proof.
  intros Hrun. revert last_exc.
  induction Hrun as [w|attempt rest w e w1 es w_end Hf He Hrun IH]; intros last_exc.
  - done.
  - cbn [retry_loop]. rewrite Hf, He. unfold after_failure in IH.
    assert (Hlast : from_option Some (Some e) (last es)
                    = from_option Some last_exc (last (e :: es))).
    { destruct es as [|e' es]; [done|]. rewrite last_cons_cons.
      destruct (proj2 (last_is_Some (e' :: es))) as [x ->]; done. }
    destruct (attempt <? max_attempts) eqn:Hlt;
      rewrite (IH (Some e)), Hlast; cbn; rewrite Hlt; done.
Qed.

Lemma fails_each_length max_attempts delay attempts w es w_end :
  fails_each sleep max_attempts delay func attempts w es w_end ->
  length es = length attempts.
Proof. induction 1; cbn; congruence. Qed.

Lemma trace_of_failed_run max_attempts delay (attempts : list Z) (es : list exn) :
  length es = length attempts ->
  let tr := flat_map (fun '(attempt, e) =>
                 Invoked :: Warned attempt max_attempts e ::
                 (if attempt <? max_attempts
                  then [Slept (delay * inject_Z attempt)] else []))
              (zip attempts es) in
  invocations tr = length attempts /\ failures tr = es.
Proof.
  revert es. induction attempts as [|attempt rest IH]; intros [|e es] Hlen;
    try discriminate; [done|].
  injection Hlen as Hlen. destruct (IH es Hlen) as [Hinv Hfail].
  unfold invocations, failures in *. cbn.
  destruct (attempt <? max_attempts); cbn; rewrite Hinv, Hfail; done.
Qed.

(** C5: an operation that fails on its first and second invocation and
    succeeds on the third, wrapped with [max_attempts = 3], makes the
    wrapper return that success after exactly three invocations, with
    the pauses [delay * 1] then [delay * 2] in between, the second
    longer than the first for a positive [delay]. *)
Theorem retry_succeeds_on_third_attempt
    (delay : Q) (w0 w1 w2 w3 : W) (e1 e2 : exn) (v : A) :
  func w0 = (Raises e1, w1) ->
  is_Exception e1 = true ->
  func (sleep (delay * inject_Z 1) w1) = (Raises e2, w2) ->
  is_Exception e2 = true ->
  func (sleep (delay * inject_Z 2) w2) = (Returns v, w3) ->
  exists tr,
    retry sleep 3 delay func w0 = (Returns v, tr, w3)
    /\ invocations tr = 3%nat
    /\ failures tr = [e1; e2]
    /\ delays tr = [delay * inject_Z 1; delay * inject_Z 2]%Q
    /\ (0 < delay -> delay * inject_Z 1 < delay * inject_Z 2)%Q.
Proof.
  intros H1 He1 H2 He2 H3. unfold retry, wrapper.
  change (range 1 (3 + 1)) with [1; 2; 3].
  cbn [retry_loop]. rewrite H1, He1.
  change (1 <? 3) with true. cbn iota. rewrite H2, He2.
  change (2 <? 3) with true. cbn iota. rewrite H3.
  eexists. split; [reflexivity|]. repeat split.
  intros Hd. apply Qmult_lt_l; [exact Hd | reflexivity].
Qed.

(** C6: when the operation fails on each of the [max_attempts]
    invocations, the wrapper has invoked it exactly [max_attempts] times
    and raises the failure of the final attempt itself, not a wrapper
    of it. *)
Theorem retry_exhausted_reraises
    (max_attempts : Z) (delay : Q) (w0 w_end : W) (es : list exn) :
  1 <= max_attempts ->
  fails_each sleep max_attempts delay func
             (range 1 (max_attempts + 1)) w0 es w_end ->
  exists e tr,
    last es = Some e
    /\ retry sleep max_attempts delay func w0 = (Raises e, tr, w_end)
    /\ invocations tr = Z.to_nat max_attempts
    /\ failures tr = es.
Proof.
  intros Hmax Hrun. pose proof (fails_each_length _ _ _ _ _ _ Hrun) as Hlen.
  rewrite range_length in Hlen.
  destruct (proj2 (last_is_Some es)) as [e He].
  { intros ->. cbn in Hlen. lia. }
  exists e. eexists. split; [exact He|].
  unfold retry, wrapper. rewrite (retry_loop_fails_each _ _ _ _ _ _ _ Hrun), He. cbn.
  split; [reflexivity|].
  rewrite <- (range_length 1 (max_attempts + 1)) in Hlen.
  destruct (trace_of_failed_run max_attempts delay _ _ Hlen) as [Hinv Hfail].
  cbn zeta in Hinv, Hfail. rewrite Hinv, Hfail, range_length.
  split; [f_equal; lia | done].
Qed.
End retry_facts.

(** ** The content-reveal loops *)

Section reveal_facts.
Variable height : nat -> Z.

Lemma scroll_loop_length rounds prev stable :
  (length (scroll_loop height rounds prev stable) <= length rounds)%nat.
Proof.
  revert prev stable. induction rounds as [|r rest IH]; intros prev stable; cbn; [lia|].
  pose proof (IH (height r) (stable + 1)). pose proof (IH (height r) 0).
  destruct (height r =? prev); [destruct (3 <=? stable + 1)|]; cbn; lia.
Qed.

Lemma prev_height_at_S (n : nat) :
  (1 <= n)%nat -> prev_height_at height (S n) = height n.
Proof. destruct n; [lia | done]. Qed.

Lemma streak_S (k : nat) :
  streak height (S k) =
    if unchanged height (S k) then S (streak height k) else 0%nat.
Proof. done. Qed.

(** The loop entered at round [n] with the state the earlier rounds left
    stops at the first round whose streak reaches three, or at the end
    of the rounds. *)
Lemma scroll_loop_stops (len n : nat) (prev stable : Z) :
  (1 <= n)%nat ->
  prev = prev_height_at height n ->
  stable = Z.of_nat (streak height (n - 1)) ->
  (streak height (n - 1) < 3)%nat ->
  forall r, r = length (scroll_loop height (seq n len) prev stable) ->
  (forall k, (n <= k < n + len)%nat -> (3 <= streak height k)%nat ->
             (r <= k - n + 1)%nat)
  /\ ((r < len)%nat -> streak height (n + r - 1) = 3%nat).
Proof.
  revert n prev stable.
  induction len as [|len IH]; intros n prev stable Hn Hprev Hst Hlt r ->.
  { cbn. split; intros; lia. }
  cbn [seq scroll_loop]. rewrite Hprev.
  assert (Hn1 : S (n - 1) = n) by lia.
  pose proof (streak_S (n - 1)) as HS. rewrite Hn1 in HS.
  fold (unchanged height n). fold (unchanged height n) in HS.
  assert (Hrec : forall stable',
             stable' = Z.of_nat (streak height n) ->
             (streak height n < 3)%nat ->
             let r := S (length (scroll_loop height (seq (S n) len) (height n) stable')) in
             (forall k, (n <= k < n + S len)%nat -> (3 <= streak height k)%nat ->
                        (r <= k - n + 1)%nat)
             /\ ((r < S len)%nat -> streak height (n + r - 1) = 3%nat)).
  { intros stable' Hst' Hlt'.
    destruct (IH (S n) (height n) stable') with (r := length
        (scroll_loop height (seq (S n) len) (height n) stable')) as [IHa IHb];
      [lia | by rewrite prev_height_at_S
       | by replace (S n - 1)%nat with n by lia
       | by replace (S n - 1)%nat with n by lia | done |].
    cbn zeta. split.
    - intros k Hk H3. destruct (decide (k = n)) as [->|Hne]; [lia|].
      specialize (IHa k ltac:(lia) H3). lia.
    - intros Hr. specialize (IHb ltac:(lia)).
      rewrite <- IHb. f_equal. lia. }
  destruct (unchanged height n) eqn:Hun.
  - destruct (3 <=? stable + 1) eqn:H3.
    + cbn [length]. split; [intros; lia|].
      intros _. replace (n + 1 - 1)%nat with n by lia. lia.
    + cbn [length]. apply Hrec; lia.
  - cbn [length]. apply Hrec; lia.
Qed.

Lemma streak_three (k : nat) :
  (3 <= streak height k)%nat <->
  (3 <= k)%nat /\ unchanged height (k - 2) = true
  /\ unchanged height (k - 1) = true /\ unchanged height k = true.
Proof.
  destruct k as [|[|[|k]]]; rewrite ?streak_S.
  1-3: repeat (cbn [streak]; destruct (unchanged height _)); lia.
  replace (S (S (S k)) - 2)%nat with (S k) by lia.
  replace (S (S (S k)) - 1)%nat with (S (S k)) by lia.
  destruct (unchanged height (S (S (S k)))), (unchanged height (S (S k))),
    (unchanged height (S k)); intuition (try discriminate; lia).
Qed.

Lemma scroll_and_load_eq :
  scroll_and_load height = scroll_loop height (seq 1 max_rounds) 0 0.
Proof. reflexivity. Qed.

(** C7: whatever heights the page reports, the Bama loop performs at most
    50 rounds; it has stopped by the third of any three consecutive
    rounds that saw an unchanged height, and it stops short of 50 rounds
    only after three such rounds, so heights that never repeat give
    exactly 50 rounds. The Divar loop performs its 15 rounds whatever
    card counts it reads. *)
Theorem reveal_loops_terminate (count : nat -> Z) :
  let r := length (scroll_and_load height) in
  (r <= 50)%nat
  /\ (forall k, (3 <= k <= 50)%nat ->
         unchanged height (k - 2) = true ->
         unchanged height (k - 1) = true ->
         unchanged height k = true ->
         (r <= k)%nat)
  /\ ((r < 50)%nat ->
         (3 <= r)%nat /\ unchanged height (r - 2) = true
         /\ unchanged height (r - 1) = true /\ unchanged height r = true)
  /\ ((forall k, unchanged height k = false) -> r = 50%nat)
  /\ fst <$> divar_scroll count = seq 1 15.
Proof.
  intros r. assert (Hr : r = length (scroll_and_load height)) by reflexivity.
  clearbody r. rewrite scroll_and_load_eq in Hr.
  assert (Hcap : (r <= 50)%nat).
  { rewrite Hr. etransitivity; [apply scroll_loop_length|].
    rewrite length_seq. reflexivity. }
  destruct (scroll_loop_stops max_rounds 1 0 0 ltac:(lia) eq_refl eq_refl
              ltac:(cbn [streak Nat.sub]; lia) r Hr) as [Hstop Hearly].
  assert (Hshort : (r < 50)%nat ->
            (3 <= r)%nat /\ unchanged height (r - 2) = true
            /\ unchanged height (r - 1) = true /\ unchanged height r = true).
  { intros Hlt. apply streak_three. unfold max_rounds in Hearly.
    specialize (Hearly Hlt). replace (1 + r - 1)%nat with r in Hearly by lia. lia. }
  split; [exact Hcap|]. split; [|split; [exact Hshort|split]].
  - intros k Hk H2 H1 H0.
    assert (H3 : (3 <= streak height k)%nat) by (apply streak_three; intuition lia).
    specialize (Hstop k ltac:(unfold max_rounds; lia) H3). lia.
  - intros Hnever. destruct (decide (r < 50)%nat) as [Hlt|Hge]; [|lia].
    destruct (Hshort Hlt) as (_ & _ & _ & Hun). by rewrite Hnever in Hun.
  - reflexivity.
Qed.
End reveal_facts.

(** ** Session acquisition *)

Lemma startswith_spec (s p : str) :
  startswith s p = true <-> exists post, s = p ++ post.
Proof.
  revert s. induction p as [|c p IH]; intros s; cbn.
  - split; [by exists s|done].
  - destruct s as [|d s].
    + split; [done|]. by intros [post Hpost].
    + rewrite andb_true_iff, N.eqb_eq, IH. split.
      * intros [-> [post ->]]. eauto.
      * intros [post Hpost]. injection Hpost as -> ->. eauto.
Qed.

Lemma contains_spec (needle hay : str) :
  contains needle hay = true <-> substring needle hay.
Proof.
  unfold substring. induction hay as [|d hay IH]; cbn [contains].
  - rewrite orb_false_r, startswith_spec. split.
    + intros [post Hpost]. by exists [], post.
    + intros (pre & post & Hpost). symmetry in Hpost.
      apply app_eq_nil in Hpost as [-> Hpost]. apply app_eq_nil in Hpost as [-> ->].
      by exists [].
  - rewrite orb_true_iff, startswith_spec, IH. split.
    + intros [[post Hpost]|(pre & post & Hpost)].
      * by exists [], post.
      * exists (d :: pre), post. by rewrite Hpost.
    + intros ([|c pre] & post & Hpost).
      * left. by exists post.
      * right. injection Hpost as -> Hpost. eauto.
Qed.

Lemma existsb_contains (phrases : list str) (text : str) :
  existsb (fun phrase => contains phrase text) phrases = true
  <-> exists phrase, phrase ∈ phrases /\ substring phrase text.
Proof.
  rewrite existsb_exists. split.
  - intros (phrase & Hin & Hc). exists phrase.
    by rewrite <- contains_spec, list_elem_of_In.
  - intros (phrase & Hin & Hc). exists phrase.
    by rewrite contains_spec, <- list_elem_of_In.
Qed.

Section acquisition_facts.
Context `{CharTables}.

(** C10, as the code has it: a page is classified BLOCKED exactly when
    its lowered title contains the lowered block-page title marker or an
    anti-bot phrase, or its lowered body text contains an anti-bot
    phrase; it is classified OK exactly when none of that holds. *)
Theorem classify_blocked_iff (title : str) (body : option str) :
  let marked :=
    (exists phrase, phrase ∈ lower CLOUDFLARE_TITLE :: ANTI_BOT_PHRASES
                    /\ substring phrase (lower title))
    \/ (exists phrase, phrase ∈ ANTI_BOT_PHRASES
                       /\ substring phrase (lower (default [] body))) in
  (classify title body = BLOCKED <-> marked)
  /\ (classify title body = OK <-> ~ marked).
Proof.
  intros marked. unfold classify, anti_bot_check.
  pose proof (existsb_contains ([lower CLOUDFLARE_TITLE] ++ ANTI_BOT_PHRASES)
                (lower title)) as Ht.
  pose proof (existsb_contains ANTI_BOT_PHRASES (lower (default [] body))) as Hb.
  change ([lower CLOUDFLARE_TITLE] ++ ANTI_BOT_PHRASES)
    with (lower CLOUDFLARE_TITLE :: ANTI_BOT_PHRASES) in *.
  subst marked.
  destruct (existsb _ (lower CLOUDFLARE_TITLE :: _)) eqn:Et.
  { split; [tauto|]. split; [done|]. intros Hn. destruct Hn. left. by apply Ht. }
  destruct (existsb _ ANTI_BOT_PHRASES) eqn:Eb.
  { split; [tauto|]. split; [done|]. intros Hn. destruct Hn. right. by apply Hb. }
  assert (Hnot : ~ ((exists phrase, phrase ∈ lower CLOUDFLARE_TITLE :: ANTI_BOT_PHRASES
                    /\ substring phrase (lower title))
    \/ (exists phrase, phrase ∈ ANTI_BOT_PHRASES
                       /\ substring phrase (lower (default [] body))))).
  { intros [Hm|Hm]; [apply Ht in Hm | apply Hb in Hm]; done. }
  split; split; done.
Qed.

Lemma attempt_blocked (E : engine_env) (t : str) (b : option str) :
  launch E = None -> new_context E = None -> new_page E = None ->
  add_init_script E = None -> wait_for_timeout E = None -> goto E = None ->
  title E = Returns t -> text_content E = Returns b ->
  classify t b = BLOCKED ->
  exists e, attempt E = ({| browser := true; context := true; page := true |}, Some e)
            /\ is_Exception e = true.
Proof.
  unfold attempt, classify, anti_bot_check.
  intros -> -> -> -> -> -> -> -> Hc.
  destruct (existsb _ _); [eauto|]. destruct (existsb _ _); [eauto|done].
Qed.

Lemma handler_closes (engine : str) (E : engine_env) (h : handles)
    (closes : list launch_event) :
  handler engine E h = (closes, None) -> closes = closes_of engine h.
Proof.
  unfold handler, closes_of, close_then. destruct h as [[] [] []]; cbn;
    destruct (page_close E), (context_close E), (browser_close E); cbn;
    intros [= <-]; done.
Qed.

Lemma launch_loop_step (p : str -> engine_env) (engine : str) (rest : list str) :
  fails_cleanly p engine ->
  exists h e,
    attempt (p engine) = (h, Some e)
    /\ is_Exception e = true
    /\ launch_loop p (engine :: rest) =
         ((launch_loop p rest).1,
          created engine h ++ Failed engine e :: closes_of engine h
            ++ (launch_loop p rest).2).
Proof.
  intros (h & e & Ha & He & Hh). exists h, e. split; [done|]. split; [done|].
  cbn [launch_loop]. rewrite Ha, He.
  destruct (handler engine (p engine) h) as [closes o] eqn:Hd.
  cbn in Hh. subst o. rewrite (handler_closes _ _ _ _ Hd).
  by destruct (launch_loop p rest).
Qed.

(** C4, as the code has it: an engine whose launch or navigation raises
    an [Exception], or whose page is classified BLOCKED, has those of its
    page, context and browser that were created closed, page first, and
    when none of these closes raises the loop goes on with the next
    engine; when every engine fails that way the result is
    [(None, None)] and nothing is raised. *)
Theorem fallback_after_clean_failure (p : str -> engine_env) :
  (forall engine rest, fails_cleanly p engine ->
     exists h e,
       attempt (p engine) = (h, Some e)
       /\ is_Exception e = true
       /\ launch_loop p (engine :: rest) =
            ((launch_loop p rest).1,
             created engine h ++ Failed engine e :: closes_of engine h
               ++ (launch_loop p rest).2))
  /\ (forall engines,
        (forall engine, engine ∈ engines -> fails_cleanly p engine) ->
        (launch_loop p engines).1 = Returns None)
  /\ (forall engine t b,
        launch (p engine) = None -> new_context (p engine) = None ->
        new_page (p engine) = None -> add_init_script (p engine) = None ->
        wait_for_timeout (p engine) = None -> goto (p engine) = None ->
        title (p engine) = Returns t -> text_content (p engine) = Returns b ->
        classify t b = BLOCKED ->
        page_close (p engine) = None -> context_close (p engine) = None ->
        browser_close (p engine) = None ->
        fails_cleanly p engine).
Proof.
  split; [apply launch_loop_step|]. split.
  - intros engines. induction engines as [|engine rest IH]; intros Hall; [done|].
    destruct (launch_loop_step p engine rest) as (h & e & _ & _ & ->).
    { apply Hall. left. }
    cbn. apply IH. intros engine' Hin. apply Hall. by right.
  - intros engine t b H1 H2 H3 H4 H5 H6 Ht Hb Hc Hp Hx Hbr.
    destruct (attempt_blocked _ t b H1 H2 H3 H4 H5 H6 Ht Hb Hc) as (e & Ha & He).
    exists {| browser := true; context := true; page := true |}, e.
    split; [done|]. split; [done|].
    unfold handler, close_then. cbn. by rewrite Hp, Hx, Hbr.
Qed.
End acquisition_facts.

(** ** Data frames *)

Section keep_first_facts.
Context {A K : Type} `{EqDecision K} (key : A -> K).

Lemma keep_first_elem (seen : list K) (l : list A) (x : A) :
  x ∈ keep_first key seen l -> x ∈ l /\ key x ∉ seen.
Proof.
  revert seen. induction l as [|y l IH]; intros seen; cbn; [by intros ?%elem_of_nil|].
  case_decide as Hy.
  - intros [Hx Hk]%IH. split; [by right|done].
  - intros Hx. apply elem_of_cons in Hx as [->|Hx]; [split; [left|done]|].
    apply IH in Hx as [Hx Hk].
    split; [by right|]. intros Hin. apply Hk. by right.
Qed.

Lemma keep_first_NoDup (seen : list K) (l : list A) :
  NoDup (key <$> keep_first key seen l).
Proof.
  revert seen. induction l as [|y l IH]; intros seen; cbn; [constructor|].
  case_decide as Hy; [apply IH|]. cbn. constructor; [|apply IH].
  intros (x & Hk & Hx)%list_elem_of_fmap. apply keep_first_elem in Hx as [_ Hx].
  apply Hx. rewrite <- Hk. left.
Qed.

(** A key of the list that is not in [seen] is the key of the first
    element that carries it, and that element is kept. *)
Lemma keep_first_first (seen : list K) (l : list A) (k : K) :
  k ∉ seen -> k ∈ key <$> l ->
  exists pre x post,
    l = pre ++ x :: post /\ key x = k /\ (k ∉ key <$> pre)
    /\ x ∈ keep_first key seen l.
Proof.
  revert seen. induction l as [|y l IH]; intros seen Hk Hin; cbn in *;
    [by apply elem_of_nil in Hin|].
  destruct (decide (key y = k)) as [Hy|Hy].
  - exists [], y, l. split; [done|]. split; [done|]. split; [by intros ?%elem_of_nil|].
    rewrite decide_False by (by rewrite Hy). left.
  - apply elem_of_cons in Hin as [Hin|Hin]; [done|].
    case_decide as Hs.
    + destruct (IH seen Hk Hin) as (pre & x & post & -> & Hx & Hpre & Hkept).
      exists (y :: pre), x, post. split; [done|]. split; [done|]. split; [|done].
      cbn. by intros [?|?]%elem_of_cons.
    + destruct (IH (key y :: seen)) as (pre & x & post & -> & Hx & Hpre & Hkept);
        [by intros [?|?]%elem_of_cons | done |].
      exists (y :: pre), x, post. split; [done|]. split; [done|]. split.
      * cbn. by intros [?|?]%elem_of_cons.
      * by right.
Qed.

Lemma filter_none (P : A -> Prop) `{forall x, Decision (P x)} (l : list A) :
  (forall x, x ∈ l -> ~ P x) -> filter P l = [].
Proof.
  induction l as [|y l IH]; intros Hno; [done|].
  rewrite filter_cons_False by (apply Hno; left).
  apply IH. intros x Hx. apply Hno. by right.
Qed.

(** In a list without two elements of the same key, an element is the
    only one with its key. *)
Lemma NoDup_key_filter (l : list A) (x : A) :
  NoDup (key <$> l) -> x ∈ l ->
  filter (fun y => key y = key x) l = [x].
Proof.
  induction l as [|y l IH]; [by intros _ ?%elem_of_nil|].
  rewrite fmap_cons. intros [Hy Hnd]%NoDup_cons Hx.
  apply elem_of_cons in Hx as [->|Hx].
  - rewrite filter_cons_True by done. f_equal. apply filter_none.
    intros z Hz Hk. apply Hy. rewrite <- Hk. apply list_elem_of_fmap. eauto.
  - rewrite filter_cons_False; [by apply IH|].
    intros Hk. apply Hy. rewrite Hk. apply list_elem_of_fmap. eauto.
Qed.

(** The first element of the list that carries its key is kept. *)
Lemma keep_first_lookup (seen : list K) (l : list A) (i : nat) (x : A) :
  l !! i = Some x -> key x ∉ seen ->
  (forall k y, (k < i)%nat -> l !! k = Some y -> key y <> key x) ->
  x ∈ keep_first key seen l.
Proof.
  revert seen i. induction l as [|y l IH]; intros seen i Hi Hseen Hfirst; [done|].
  destruct i as [|i]; cbn in Hi |- *.
  - injection Hi as ->. rewrite decide_False by done. left.
  - assert (Hy : key y <> key x) by (apply (Hfirst 0%nat); [lia|done]).
    assert (Hrest : forall k z, (k < i)%nat -> l !! k = Some z -> key z <> key x).
    { intros k z Hk Hz. apply (Hfirst (S k)); [lia|done]. }
    case_decide; [by apply (IH seen i)|].
    right. apply (IH _ i); [done| |done]. by intros [?|?]%elem_of_cons.
Qed.

Lemma keep_first_id_elem (l : list A) (x : A) :
  x ∈ keep_first key [] l -> x ∈ l.
Proof. by intros [? _]%keep_first_elem. Qed.
End keep_first_facts.

Lemma keep_first_keys {A : Type} `{EqDecision A} (l : list A) (x : A) :
  x ∈ keep_first id [] l <-> x ∈ l.
Proof.
  split; [apply keep_first_id_elem|]. intros Hx.
  destruct (keep_first_first id [] l x) as (pre & y & post & _ & Hy & _ & Hkept).
  - by intros ?%elem_of_nil.
  - by rewrite list_fmap_id.
  - by rewrite <- Hy.
Qed.

Lemma dict_get_None (key : str) (d : record) :
  dict_get key d = None <-> key ∉ d.*1.
Proof.
  induction d as [|[k v] d IH]; cbn.
  - split; [by intros _ ?%elem_of_nil|done].
  - case_decide as Hk.
    + split; [done|]. intros Hn. destruct Hn. rewrite Hk. left.
    + rewrite IH. split.
      * intros Hn Hin. apply elem_of_cons in Hin as [Hin|Hin]; [by symmetry in Hin|done].
      * intros Hn Hin. apply Hn. by right.
Qed.

(** The columns of a frame are the keys that some record has. *)
Lemma DataFrame_columns (data : list record) (c : str) :
  c ∈ columns (DataFrame data) <-> exists r, r ∈ data /\ c ∈ r.*1.
Proof.
  unfold DataFrame. cbn [columns]. rewrite keep_first_keys.
  induction data as [|r data IH]; cbn.
  - split; [by intros ?%elem_of_nil|]. by intros (r & ?%elem_of_nil & _).
  - rewrite elem_of_app, IH. split.
    + intros [Hc|(r' & Hr' & Hc)]; [exists r|exists r'];
        (split; [|done]); [left|by right].
    + intros (r' & Hr' & Hc). apply elem_of_cons in Hr' as [->|Hr']; [by left|].
      right. eauto.
Qed.

(** ** The order of [sort_values] *)

Lemma str_leb_cons (c d : N) (a b : str) :
  str_leb (c :: a) (d :: b) = true <->
  (c < d)%N \/ (c = d /\ str_leb a b = true).
Proof. cbn. by rewrite orb_true_iff, andb_true_iff, N.ltb_lt, N.eqb_eq. Qed.

Lemma str_leb_total (a b : str) : str_leb a b = true \/ str_leb b a = true.
Proof.
  revert b. induction a as [|c a IH]; intros [|d b];
    [by left | by left | by right |].
  rewrite !str_leb_cons. destruct (IH b); destruct (N.lt_trichotomy c d) as [?|[?|?]];
    auto.
Qed.

Lemma str_leb_trans (a b c : str) :
  str_leb a b = true -> str_leb b c = true -> str_leb a c = true.
Proof.
  revert b c. induction a as [|x a IH]; intros [|y b] [|z c]; try done.
  rewrite !str_leb_cons. intros [?|[-> Hab]] [?|[-> Hbc]]; eauto.
  left. lia.
Qed.

#[global] Instance row_le_total (by_ : str) : Total (row_le by_).
Proof.
  intros r1 r2. unfold row_le.
  destruct (dict_get by_ r1) as [x|], (dict_get by_ r2) as [y|]; cbn; auto.
  apply str_leb_total.
Qed.

#[global] Instance row_le_trans (by_ : str) : Transitive (row_le by_).
Proof.
  intros r1 r2 r3. unfold row_le.
  destruct (dict_get by_ r1) as [x|], (dict_get by_ r2) as [y|],
    (dict_get by_ r3) as [z|]; cbn; try done.
  apply str_leb_trans.
Qed.

(** ** [save_to_csv] *)

Lemma drop_duplicates_rows (subset : list str) (df df' : frame) :
  drop_duplicates subset df = Returns df' ->
  columns df' = columns df
  /\ (forall r, r ∈ rows df' -> r ∈ rows df)
  /\ (empty df = false ->
      rows df' = keep_first (cells subset) [] (rows df)
      /\ forall c, c ∈ subset -> c ∈ columns df).
Proof.
  unfold drop_duplicates. destruct (empty df) eqn:He.
  { intros [= <-]. done. }
  destruct (List.filter _ subset) as [|c0 missing] eqn:Hf; [|done].
  intros [= <-]. cbn. split; [done|]. split; [apply keep_first_id_elem|].
  intros _. split; [done|]. intros c Hc.
  destruct (decide (c ∈ columns df)) as [|Hn]; [done|].
  assert (Hin : In c (List.filter (fun c => bool_decide (c ∉ columns df)) subset)).
  { apply filter_In. split; [by apply list_elem_of_In|]. by apply bool_decide_eq_true. }
  rewrite Hf in Hin. destruct Hin.
Qed.

Lemma sort_values_rows (by_ : str) (df df' : frame) :
  sort_values by_ df = Returns df' ->
  columns df' = columns df
  /\ by_ ∈ columns df
  /\ rows df' ≡ₚ rows df
  /\ StronglySorted (row_le by_) (rows df').
Proof.
  unfold sort_values. case_decide as Hin; [|done]. intros [= <-]. cbn.
  split; [done|]. split; [done|].
  split; [apply merge_sort_Permutation | apply StronglySorted_merge_sort; apply _].
Qed.

Lemma save_to_csv_raises (data : list record) (prefix output_dir today : str)
    (fs : file_system) (e : exn) :
  data <> [] -> deduplicated data = Raises e ->
  save_to_csv data prefix output_dir today fs = (Raises e, fs).
Proof. intros Hne He. unfold save_to_csv. destruct data; [done|]. by rewrite He. Qed.

Lemma save_to_csv_returns (data : list record) (prefix output_dir today : str)
    (fs : file_system) (df : frame) :
  data <> [] -> deduplicated data = Returns df ->
  save_to_csv data prefix output_dir today fs =
    (Returns (Some (primary_path prefix output_dir today)),
     saved df prefix output_dir today fs).
Proof. intros Hne Hd. unfold save_to_csv. destruct data; [done|]. by rewrite Hd. Qed.

Lemma saved_files (df : frame) (prefix output_dir today : str) (fs : file_system)
    (path : str) :
  files (saved df prefix output_dir today fs) !! path =
    if decide (path = backup_path prefix today
               \/ path = primary_path prefix output_dir today)
    then Some (to_csv df (lit "utf-8-sig"))
    else files fs !! path.
Proof.
  unfold saved, write, makedirs. cbn [files].
  rewrite !lookup_insert.
  destruct (decide (backup_path prefix today = path)) as [<-|Hb];
    [by rewrite decide_True by auto|].
  destruct (decide (primary_path prefix output_dir today = path)) as [<-|Hp];
    [by rewrite decide_True by auto|].
  rewrite decide_False; [done|]. by intros [->| ->].
Qed.

Lemma saved_twice (df : frame) (prefix output_dir today : str) (fs : file_system) :
  saved df prefix output_dir today (saved df prefix output_dir today fs)
  = saved df prefix output_dir today fs.
Proof.
  unfold saved, write, makedirs. cbn [files dirs]. f_equal.
  - apply set_eq. intros dir. rewrite !elem_of_union. tauto.
  - apply map_eq. intros path. rewrite !lookup_insert.
    destruct (decide (backup_path prefix today = path)); [done|].
    by destruct (decide (primary_path prefix output_dir today = path)).
Qed.

Lemma year_in_key : lit "year" ∈ DEDUP_KEY.
Proof. unfold DEDUP_KEY. set_solver. Qed.

(** Without a [year] key in any record the frame has no [year] column,
    and line 74 raises. *)
Lemma deduplicated_without_year (data : list record) :
  data <> [] ->
  (forall r, r ∈ data -> dict_get (lit "year") r = None) ->
  exists missing, deduplicated data = Raises (KeyError missing).
Proof.
  intros Hne Hyear.
  assert (Hcol : lit "year" ∉ columns (DataFrame data)).
  { intros (r & Hr & Hk)%DataFrame_columns. by apply (dict_get_None _ r) in Hk; [|auto]. }
  unfold deduplicated, drop_duplicates. destruct (empty (DataFrame data)) eqn:He.
  - cbn [bind]. unfold sort_values. case_decide as Hm; [|eauto].
    unfold empty in He. destruct (columns (DataFrame data)) eqn:Hc.
    + by apply elem_of_nil in Hm.
    + cbn [DataFrame rows] in He. by destruct data.
  - destruct (List.filter _ DEDUP_KEY) as [|c missing] eqn:Hf; [|cbn; eauto].
    assert (Hin : In (lit "year")
              (List.filter (fun c => bool_decide (c ∉ columns (DataFrame data)))
                           DEDUP_KEY)).
    { apply filter_In. split; [apply list_elem_of_In, year_in_key|].
      by apply bool_decide_eq_true. }
    rewrite Hf in Hin. destruct Hin.
Qed.

(** The frame of line 74, when the line does not raise. *)
Lemma deduplicated_returns (data : list record) (df : frame) :
  data <> [] -> deduplicated data = Returns df ->
  columns df = columns (DataFrame data)
  /\ rows df ≡ₚ keep_first (cells DEDUP_KEY) [] data
  /\ StronglySorted (row_le (lit "model")) (rows df)
  /\ (forall c, c ∈ DEDUP_KEY -> c ∈ columns df)
  /\ lit "model" ∈ columns df.
Proof.
  intros Hne. unfold deduplicated.
  destruct (drop_duplicates DEDUP_KEY (DataFrame data)) as [df0|e] eqn:Hd; [|done].
  cbn [bind]. intros Hs.
  apply drop_duplicates_rows in Hd as (Hc0 & _ & Hrows).
  apply sort_values_rows in Hs as (Hc & Hm & Hperm & Hsorted).
  destruct (empty (DataFrame data)) eqn:He.
  { unfold empty in He. rewrite <- Hc0 in He. destruct (columns df0).
    - by apply elem_of_nil in Hm.
    - cbn [DataFrame rows] in He. by destruct data. }
  destruct (Hrows eq_refl) as [Hr Hkey]. cbn [DataFrame rows] in Hr.
  rewrite Hc, Hc0. split; [done|]. split; [by rewrite Hperm, Hr|].
  split; [done|]. split; [done|]. by rewrite <- Hc0.
Qed.

Lemma filter_all_false {A : Type} (f : A -> bool) (l : list A) :
  (forall x, x ∈ l -> f x = false) -> List.filter f l = [].
Proof.
  induction l as [|y l IH]; intros Hall; [done|]. cbn.
  rewrite (Hall y) by left. apply IH. intros x Hx. apply Hall. by right.
Qed.

(** Line 74 does not raise when some record has every field of the dedup
    key. *)
Lemma deduplicated_with_key (data : list record) (r : record) :
  r ∈ data ->
  (forall c, c ∈ DEDUP_KEY -> is_Some (dict_get c r)) ->
  exists df, deduplicated data = Returns df.
Proof.
  intros Hr Hkey.
  assert (Hcols : forall c, c ∈ DEDUP_KEY -> c ∈ columns (DataFrame data)).
  { intros c Hc. apply DataFrame_columns. exists r. split; [done|].
    destruct (decide (c ∈ r.*1)) as [|Hn]; [done|].
    apply dict_get_None in Hn. destruct (Hkey c Hc) as [v Hv]. congruence. }
  assert (Hmodel : lit "model" ∈ columns (DataFrame data)).
  { apply Hcols. unfold DEDUP_KEY. set_solver. }
  unfold deduplicated, drop_duplicates.
  assert (He : empty (DataFrame data) = false).
  { unfold empty. destruct (columns (DataFrame data));
      [by apply elem_of_nil in Hmodel|].
    cbn [DataFrame rows]. destruct data; [by apply elem_of_nil in Hr|done]. }
  rewrite He, filter_all_false.
  - cbn [bind]. unfold sort_values. cbn [columns]. rewrite decide_True by done. eauto.
  - intros c Hc. apply bool_decide_eq_false. intros Hn. by apply Hn, Hcols.
Qed.

Lemma save_to_csv_without_year
    (data : list record) (prefix output_dir today : str) (fs : file_system) :
  data <> [] ->
  (forall r, r ∈ data -> dict_get (lit "year") r = None) ->
  exists missing,
    save_to_csv data prefix output_dir today fs = (Raises (KeyError missing), fs).
Proof.
  intros Hne Hyear.
  destruct (deduplicated_without_year data Hne Hyear) as [missing Hd].
  exists missing. by apply save_to_csv_raises.
Qed.

Section persistence_facts.
Context `{CharTables}.

Lemma divar_records_lack_year (today : str) (cards : list divar_card) (r : record) :
  r ∈ divar_extract today cards -> dict_get (lit "year") r = None.
Proof.
  unfold divar_extract. intros (item & -> & _)%list_elem_of_fmap.
  by destruct item as [[model mileage] price].
Qed.

Lemma save_batch_divar (cards : list divar_card) (today : str) (fs : file_system) :
  divar_extract today cards <> [] ->
  exists missing,
    save_batch (divar_extract today cards) (lit "divar") today fs
    = (Raises (KeyError missing), fs).
Proof.
  intros Hne. unfold save_batch. rewrite bool_decide_false by done.
  apply save_to_csv_without_year; [done|]. intros r. apply divar_records_lack_year.
Qed.

(** C1, as the code has it: a non-empty batch in which no record has a
    [year] key makes [save_to_csv] raise a [KeyError] and leave the file
    system as it was: no directory is created and neither the primary nor
    the backup file is written. Every batch of the Divar extractor is such
    a batch. *)
Theorem save_without_year_raises :
  (forall (data : list record) (prefix output_dir today : str) (fs : file_system),
      data <> [] ->
      (forall r, r ∈ data -> dict_get (lit "year") r = None) ->
      exists missing,
        save_to_csv data prefix output_dir today fs = (Raises (KeyError missing), fs))
  /\ (forall (cards : list divar_card) (today : str) (fs : file_system),
        divar_extract today cards <> [] ->
        exists missing,
          save_batch (divar_extract today cards) (lit "divar") today fs
          = (Raises (KeyError missing), fs)).
Proof.
  split; [apply save_to_csv_without_year|]. apply save_batch_divar.
Qed.

(** C9: a second call with the same batch, prefix and day returns what the
    first call returned and leaves the file system as the first call left
    it; when the first call returned a path, the primary and the backup
    file hold the deduplicated, sorted frame, one row per dedup key. *)
Theorem save_twice_is_save_once
    (data : list record) (prefix output_dir today : str) (fs : file_system) :
  let once := save_to_csv data prefix output_dir today fs in
  save_to_csv data prefix output_dir today once.2 = once
  /\ (forall path, once.1 = Returns (Some path) ->
        exists df,
          deduplicated data = Returns df
          /\ path = primary_path prefix output_dir today
          /\ files once.2 !! path = Some (to_csv df (lit "utf-8-sig"))
          /\ files once.2 !! backup_path prefix today
             = Some (to_csv df (lit "utf-8-sig"))
          /\ length (body (to_csv df (lit "utf-8-sig"))) = length (rows df)
          /\ NoDup (cells DEDUP_KEY <$> rows df)).
Proof.
  intros once. subst once. destruct data as [|r data]; [done|].
  destruct (deduplicated (r :: data)) as [df|e] eqn:Hd.
  - rewrite !(save_to_csv_returns _ _ _ _ _ df) by done. cbn [fst snd].
    split; [by rewrite saved_twice|].
    intros path [= <-]. exists df.
    rewrite !saved_files, !decide_True by auto.
    split; [done|]. split; [done|]. split; [done|]. split; [done|].
    split; [unfold to_csv; cbn [body]; by rewrite length_fmap|].
    apply deduplicated_returns in Hd as (_ & Hperm & _); [|done].
    rewrite Hperm. apply keep_first_NoDup.
  - rewrite !(save_to_csv_raises _ _ _ _ _ e) by done. cbn [fst snd].
    split; [done|]. by intros path [=].
Qed.

(** C8: when a batch holds two records with the same model, year, mileage,
    price and source_url and different descriptions, the call writes
    exactly one row with that key, the first record of the batch that has
    it: when no earlier record has the key, the first of the two is
    written and the second is not. The rows are written in ascending order
    of model. *)
Theorem dedup_keeps_one_row
    (data : list record) (prefix output_dir today : str) (fs : file_system)
    (i j : nat) (r1 r2 : record) :
  (i < j)%nat ->
  data !! i = Some r1 ->
  data !! j = Some r2 ->
  (forall c, c ∈ DEDUP_KEY -> is_Some (dict_get c r1)) ->
  cells DEDUP_KEY r1 = cells DEDUP_KEY r2 ->
  dict_get (lit "description") r1 <> dict_get (lit "description") r2 ->
  exists df,
    save_to_csv data prefix output_dir today fs
    = (Returns (Some (primary_path prefix output_dir today)),
       saved df prefix output_dir today fs)
    /\ files (saved df prefix output_dir today fs)
         !! primary_path prefix output_dir today
       = Some (to_csv df (lit "utf-8-sig"))
    /\ body (to_csv df (lit "utf-8-sig"))
       = (fun r => (fun c => default [] (dict_get c r)) <$> columns df) <$> rows df
    /\ length (filter (fun r => cells DEDUP_KEY r = cells DEDUP_KEY r1) (rows df))
       = 1%nat
    /\ ((forall k r, (k < i)%nat -> data !! k = Some r ->
                     cells DEDUP_KEY r <> cells DEDUP_KEY r1) ->
        r1 ∈ rows df /\ r2 ∉ rows df)
    /\ StronglySorted (row_le (lit "model")) (rows df).
Proof.
  intros Hij Hi Hj Hkey Hsame Hdesc.
  assert (Hr1 : r1 ∈ data) by (apply list_elem_of_lookup; eauto).
  assert (Hne : data <> []) by (intros ->; by apply elem_of_nil in Hr1).
  destruct (deduplicated_with_key data r1 Hr1 Hkey) as [df Hd].
  exists df. split; [by apply save_to_csv_returns|].
  split; [rewrite saved_files, decide_True by auto; done|].
  split; [done|].
  apply deduplicated_returns in Hd as (_ & Hperm & Hsorted & _); [|done].
  destruct (keep_first_first (cells DEDUP_KEY) [] data (cells DEDUP_KEY r1))
    as (pre & x & post & _ & Hx & _ & Hkept).
  { by intros ?%elem_of_nil. }
  { apply list_elem_of_fmap. eauto. }
  pose proof (NoDup_key_filter (cells DEDUP_KEY) _ x
                (keep_first_NoDup (cells DEDUP_KEY) [] data) Hkept) as Hone.
  rewrite Hx in Hone.
  split; [by rewrite Hperm, Hone|].
  split; [|done]. intros Hfirst.
  assert (Hk1 : r1 ∈ keep_first (cells DEDUP_KEY) [] data).
  { apply (keep_first_lookup _ _ _ i); [done|by intros ?%elem_of_nil|done]. }
  assert (Hxr : x = r1).
  { assert (Hin : r1 ∈ filter (fun r => cells DEDUP_KEY r = cells DEDUP_KEY r1)
                      (keep_first (cells DEDUP_KEY) [] data))
      by (by apply list_elem_of_filter).
    rewrite Hone in Hin. by apply list_elem_of_singleton in Hin. }
  subst x. split; [by rewrite Hperm|].
  rewrite Hperm. intros Hk2.
  assert (Hin : r2 ∈ filter (fun r => cells DEDUP_KEY r = cells DEDUP_KEY r1)
                    (keep_first (cells DEDUP_KEY) [] data))
    by (by apply list_elem_of_filter).
  rewrite Hone in Hin. apply list_elem_of_singleton in Hin. by subst r2.
Qed.

Lemma truthy_nonempty (s : str) : truthy s = true <-> s <> [].
Proof. by destruct s. Qed.

(** What [bama_scraper.scrape] guarantees of a record it appends. *)
Lemma bama_record_valid (today : str) (c : bama_card) (r : record) :
  bama_record today c = Some r ->
  exists model price price_status,
    dict_get (lit "model") r = Some model
    /\ dict_get (lit "price") r = Some price
    /\ dict_get (lit "price_status") r = Some price_status
    /\ model <> []
    /\ (price <> [] \/ price_status = lit "negotiable")
    /\ ~ (price = [] /\ price_status = lit "fixed").
Proof.
  unfold bama_record. destruct (link_elem c) as [[title_attr href_attr]|]; [|done].
  destruct (match price_elem c with Some _ => _ | None => _ end)
    as [[price price_status]|]; [|done].
  destruct (truthy _ && _) eqn:Hkeep; [|done]. intros [= <-].
  apply andb_true_iff in Hkeep as [Hmodel Hprice].
  apply truthy_nonempty in Hmodel.
  apply orb_true_iff in Hprice. rewrite truthy_nonempty, bool_decide_eq_true in Hprice.
  eexists _, price, price_status.
  split; [reflexivity|]. split; [reflexivity|]. split; [reflexivity|].
  split; [done|]. split; [done|].
  intros [-> ->]. by destruct Hprice.
Qed.

Lemma bama_extract_elem (today : str) (cards : list card_result)
    (all_data batch : list record) (r : record) :
  bama_extract today cards all_data = Returns batch ->
  r ∈ batch ->
  r ∈ all_data \/ exists c, Card c ∈ cards /\ bama_record today c = Some r.
Proof.
  revert all_data. induction cards as [|[c|e] cards IH]; intros all_data; cbn.
  - intros [= <-]. by left.
  - intros Hb Hr. destruct (IH _ Hb Hr) as [Hin|(c' & Hc' & Hrec)].
    + apply elem_of_app in Hin as [Hin|Hin]; [by left|]. right. exists c.
      split; [left|]. destruct (bama_record today c); cbn in Hin;
        [by apply list_elem_of_singleton in Hin as ->|by apply elem_of_nil in Hin].
    + right. exists c'. split; [by right|done].
  - destruct (is_Exception e); [|done]. intros Hb Hr.
    destruct (IH _ Hb Hr) as [Hin|(c' & Hc' & Hrec)]; [by left|].
    right. exists c'. split; [by right|done].
Qed.

Lemma bama_batch_has_model (today : str) (cards : list card_result)
    (batch : list record) (r : record) :
  bama_extract today cards [] = Returns batch -> r ∈ batch -> has_model r.
Proof.
  intros Hb Hr. destruct (bama_extract_elem _ _ _ _ _ Hb Hr) as [Hin|(c & _ & Hrec)];
    [by apply elem_of_nil in Hin|].
  apply bama_record_valid in Hrec as (model & _ & _ & Hm & _ & _ & Hne & _).
  by exists model.
Qed.

(** The rows of a written frame whose records all have a model have a
    non-empty field under the [model] header. *)
Lemma to_csv_model_field (df : frame) (enc : str) (row : list str) (i : nat) :
  (forall r, r ∈ rows df -> has_model r) ->
  row ∈ body (to_csv df enc) ->
  header (to_csv df enc) !! i = Some (lit "model") ->
  exists m, row !! i = Some m /\ m <> [].
Proof.
  unfold to_csv. cbn [body header]. intros Hall (r & -> & Hr)%list_elem_of_fmap Hi.
  destruct (Hall r Hr) as (m & Hm & Hne). exists m.
  rewrite list_lookup_fmap, Hi. cbn [fmap option_fmap option_map]. by rewrite Hm.
Qed.

(** C2: whichever scraper built the batch, when the call returns a path
    the primary and the backup file hold the same content, in which every
    row has a non-empty field under the [model] header, and no other path
    is touched; when the call does not return a path, as for every Divar
    batch, the file system is left as it was. *)
Theorem saved_rows_have_model
    (today prefix : str) (fs : file_system) (batch : list record) :
  (exists cards, bama_extract today cards [] = Returns batch)
  \/ (exists cards, batch = divar_extract today cards) ->
  match save_batch batch prefix today fs with
  | (Returns (Some p), after) =>
      p = primary_path prefix (lit "output") today
      /\ exists f,
           files after !! p = Some f
           /\ files after !! backup_path prefix today = Some f
           /\ (forall path, path <> p -> path <> backup_path prefix today ->
                            files after !! path = files fs !! path)
           /\ forall row i, row ∈ body f -> header f !! i = Some (lit "model") ->
                            exists m, row !! i = Some m /\ m <> []
  | (_, after) => after = fs
  end.
Proof.
  intros Hfrom. unfold save_batch. case_bool_decide as Hb; [done|].
  destruct Hfrom as [[cards Hcards]|[cards ->]].
  - destruct (deduplicated batch) as [df|e] eqn:Hd.
    + rewrite (save_to_csv_returns _ _ _ _ _ df) by done.
      split; [done|]. exists (to_csv df (lit "utf-8-sig")).
      rewrite !saved_files, !decide_True by auto.
      split; [done|]. split; [done|]. split.
      * intros path Hp Hbk. rewrite saved_files, decide_False; [done|]. by intros [?|?].
      * intros row i. apply to_csv_model_field.
        intros r Hr. apply (bama_batch_has_model today cards batch); [done|].
        apply deduplicated_returns in Hd as (_ & Hperm & _); [|done].
        rewrite Hperm in Hr. by apply keep_first_id_elem in Hr.
    + by rewrite (save_to_csv_raises _ _ _ _ _ e).
  - destruct (save_to_csv_without_year (divar_extract today cards) prefix
                (lit "output") today fs) as [missing ->]; [done| |done].
    intros r. apply divar_records_lack_year.
Qed.
End persistence_facts.

(** C3, at a Divar card whose title is blank: the record is retained
    with an empty model, which the Bama mapper would have dropped. *)
Lemma divar_retains_empty_model :
  @divar_extract ascii_tables (lit "2025-11-10")
    [{| card_title := Some (lit "  ");
        descs := [lit "120,000 km"; lit "450,000,000 toman"] |}]
  = [[(lit "model", []);
      (lit "mileage", lit "120,000 km");
      (lit "price", lit "450000000");
      (lit "source_url", DIVAR_URL);
      (lit "scrape_date", lit "2025-11-10")]].
Proof. reflexivity. Qed.

(** ** The theorems at concrete inputs *)

(** [flaky] under three attempts with Bama's delay of three seconds. *)
Lemma retry_succeeds_on_third_attempt_witness :
  exists tr,
    retry no_effect 3 3%Q flaky 0%nat = (Returns 2%nat, tr, 3%nat)
    /\ invocations tr = 3%nat
    /\ failures tr = [Error (lit "timeout"); Error (lit "timeout")]
    /\ delays tr = [3 * inject_Z 1; 3 * inject_Z 2]%Q
    /\ (0 < 3 -> 3 * inject_Z 1 < 3 * inject_Z 2)%Q.
Proof.
  apply (retry_succeeds_on_third_attempt flaky no_effect 3%Q 0%nat 1%nat 2%nat 3%nat
           (Error (lit "timeout")) (Error (lit "timeout")) 2%nat);
    reflexivity.
Defined.

(** An operation that always times out, under three attempts. *)
Lemma retry_exhausted_reraises_witness :
  exists e tr,
    last (replicate 3 (Error (lit "timeout"))) = Some e
    /\ retry no_effect 3 3%Q always_failing 0%nat = (Raises e, tr, 3%nat)
    /\ invocations tr = Z.to_nat 3
    /\ failures tr = replicate 3 (Error (lit "timeout")).
Proof.
  apply (retry_exhausted_reraises always_failing no_effect 3 3%Q 0%nat 3%nat
           (replicate 3 (Error (lit "timeout")))).
  - lia.
  - repeat (econstructor; try reflexivity).
Defined.

(** A page whose height stays at 844 stops the Bama loop by round 4. *)
Lemma reveal_loops_terminate_witness :
  (length (scroll_and_load (fun _ => 844%Z)) <= 4)%nat.
Proof.
  apply (proj1 (proj2 (reveal_loops_terminate (fun _ => 844) (fun _ => 0))));
    [lia | reflexivity | reflexivity | reflexivity].
Defined.

(** C4 fails where a close raises: both engines land on a challenge page
    and closing the page raises. The first engine's block is caught, its
    [page.close()] raises out of the handler, the context and the browser
    are never closed, the second engine is never launched, and the caller
    gets the exception instead of [(None, None)]. *)
Lemma close_error_escapes :
  @classify ascii_tables (lit "Just a moment...") (Some (lit "Checking your browser"))
  = BLOCKED
  /\ @launch_browser_with_fallback ascii_tables
       (fun _ => challenge_page (Some (Error (lit "Target closed"))))
     = (Raises (Error (lit "Target closed")),
        [Created Browser (lit "chromium");
         Created Context (lit "chromium");
         Created Page (lit "chromium");
         Failed (lit "chromium") (PWTimeout (lit "Anti-bot detected (title)"))]).
Proof. split; reflexivity. Qed.

(** Both engines land on a challenge page and every close succeeds. *)
Lemma fallback_after_clean_failure_witness :
  (@launch_loop ascii_tables (fun _ => challenge_page None) BROWSER_FALLBACK).1
  = Returns None.
Proof.
  apply (proj1 (proj2 (@fallback_after_clean_failure ascii_tables
                         (fun _ => challenge_page None)))).
  intros engine _.
  apply (proj2 (proj2 (@fallback_after_clean_failure ascii_tables
                         (fun _ => challenge_page None)))
           engine (lit "Just a moment...") (Some (lit "Checking your browser")));
    reflexivity.
Defined.

(** C10 fails on the title marker: a title with the word Cloudflare is
    BLOCKED though neither it nor the body holds an anti-bot phrase, and a
    body with that word is OK. *)
Lemma classify_title_marker :
  @classify ascii_tables (lit "Attention Required! | Cloudflare")
                         (Some (lit "Sorry, you have been blocked"))
  = BLOCKED
  /\ ~ @has_anti_bot_phrase ascii_tables (lit "Attention Required! | Cloudflare")
  /\ ~ @has_anti_bot_phrase ascii_tables (lit "Sorry, you have been blocked")
  /\ @classify ascii_tables (lit "Used cars") (Some (lit "Protected by Cloudflare"))
     = OK.
Proof.
  assert (Hno : forall text,
             existsb (fun phrase => contains (@lower ascii_tables phrase)
                                             (@lower ascii_tables text))
                     ANTI_BOT_PHRASES = false ->
             ~ @has_anti_bot_phrase ascii_tables text).
  { intros text Hex (phrase & Hin & Hsub). apply contains_spec in Hsub.
    apply not_true_iff_false in Hex. apply Hex, existsb_exists.
    exists phrase. by rewrite <- list_elem_of_In. }
  split; [reflexivity|]. split; [by apply Hno|]. split; [by apply Hno|reflexivity].
Qed.

(** C1 fails on a batch where one record has a year and one has not: the
    frame has a year column, line 74 does not raise and both files are
    written, with two rows each. *)
Lemma save_mixed_batch_writes :
  pride ∈ [peugeot; pride]
  /\ dict_get (lit "year") pride = None
  /\ exists f,
       (save_to_csv [peugeot; pride] (lit "bama") (lit "output") day no_files).1
       = Returns (Some (lit "output/bama_2025-11-10.csv"))
       /\ files (save_to_csv [peugeot; pride] (lit "bama") (lit "output") day no_files).2
            !! lit "output/bama_2025-11-10.csv" = Some f
       /\ files (save_to_csv [peugeot; pride] (lit "bama") (lit "output") day no_files).2
            !! lit "backups/bama_2025-11-10_backup.csv" = Some f
       /\ length (body f) = 2%nat.
Proof.
  split; [set_solver|]. split; [reflexivity|].
  destruct (deduplicated [peugeot; pride]) as [df|e] eqn:Hd; [|by vm_compute in Hd].
  exists (to_csv df (lit "utf-8-sig")).
  rewrite (save_to_csv_returns _ _ _ _ _ df) by done. cbn [fst snd].
  split; [reflexivity|].
  change (lit "output/bama_2025-11-10.csv")
    with (primary_path (lit "bama") (lit "output") day).
  change (lit "backups/bama_2025-11-10_backup.csv")
    with (backup_path (lit "bama") day).
  rewrite !saved_files, !decide_True by auto. split; [done|]. split; [done|].
  vm_compute in Hd. injection Hd as <-. reflexivity.
Qed.

(** A batch of one Divar record. *)
Lemma save_without_year_raises_witness :
  exists missing,
    save_to_csv [pride] (lit "divar") (lit "output") day no_files
    = (Raises (KeyError missing), no_files).
Proof.
  apply (proj1 (@save_without_year_raises ascii_tables)).
  - discriminate.
  - intros r Hr. apply list_elem_of_singleton in Hr. rewrite Hr. reflexivity.
Defined.

(** The batch the Bama mapper builds from one card. *)
Lemma saved_rows_have_model_witness :
  @bama_extract ascii_tables day [Card peugeot_card] [] = Returns peugeot_batch
  /\ match save_batch peugeot_batch (lit "bama") day no_files with
     | (Returns (Some p), after) =>
         p = primary_path (lit "bama") (lit "output") day
         /\ exists f,
              files after !! p = Some f
              /\ files after !! backup_path (lit "bama") day = Some f
              /\ (forall path, path <> p -> path <> backup_path (lit "bama") day ->
                               files after !! path = files no_files !! path)
              /\ forall row i, row ∈ body f -> header f !! i = Some (lit "model") ->
                               exists m, row !! i = Some m /\ m <> []
     | (_, after) => after = no_files
     end.
Proof.
  split; [reflexivity|].
  apply (@saved_rows_have_model ascii_tables day (lit "bama") no_files peugeot_batch).
  left. exists [Card peugeot_card]. reflexivity.
Defined.

(** The same listing twice, with two descriptions. *)
Lemma dedup_keeps_one_row_witness :
  exists df,
    save_to_csv [peugeot; peugeot_again] (lit "bama") (lit "output") day no_files
    = (Returns (Some (primary_path (lit "bama") (lit "output") day)),
       saved df (lit "bama") (lit "output") day no_files)
    /\ length (filter (fun r => cells DEDUP_KEY r = cells DEDUP_KEY peugeot) (rows df))
       = 1%nat
    /\ peugeot ∈ rows df
    /\ (peugeot_again ∉ rows df)
    /\ StronglySorted (row_le (lit "model")) (rows df).
Proof.
  destruct (dedup_keeps_one_row [peugeot; peugeot_again] (lit "bama") (lit "output")
              day no_files 0 1 peugeot peugeot_again)
    as (df & Hsave & _ & _ & Hone & Hfirst & Hsorted).
  - lia.
  - reflexivity.
  - reflexivity.
  - intros c Hc. unfold DEDUP_KEY in Hc.
    repeat (apply elem_of_cons in Hc as [->|Hc]; [eexists; reflexivity|]).
    by apply elem_of_nil in Hc.
  - reflexivity.
  - discriminate.
  - exists df. split; [exact Hsave|]. split; [exact Hone|].
    destruct Hfirst as [Hin Hout]; [intros k r Hk; lia|].
    split; [exact Hin|]. split; [exact Hout|exact Hsorted].
Defined.

(** Saving that batch a second time. *)
Lemma save_twice_is_save_once_witness :
  save_to_csv [peugeot; peugeot_again] (lit "bama") (lit "output") day
    (save_to_csv [peugeot; peugeot_again] (lit "bama") (lit "output") day no_files).2
  = save_to_csv [peugeot; peugeot_again] (lit "bama") (lit "output") day no_files.
Proof.
  exact (proj1 (save_twice_is_save_once [peugeot; peugeot_again] (lit "bama")
                  (lit "output") day no_files)).
Defined.

(** * Further properties of the code *)

(** ** [helpers.retry] on any operation *)

Section retry_shape.
Context {W A : Type}.
Variable sleep : Q -> W -> W.
Variable max_attempts : Z.
Variable delay : Q.
Variable func : W -> outcome A * W.

(** The loop over the attempts [a, a+1, ..., max_attempts]. *)
Lemma retry_loop_shape (n : nat) (a : Z) (last_exc : option exn) (w : W) :
  a + Z.of_nat n = max_attempts + 1 ->
  forall o tr w',
    retry_loop sleep max_attempts delay func (seqZ a (Z.of_nat n)) last_exc w
    = (o, tr, w') ->
    (invocations tr <= n)%nat
    /\ (n <> 0%nat -> invocations tr <> 0%nat)
    /\ length (delays tr) = (invocations tr - 1)%nat
    /\ delays tr
       = (fun k => delay * inject_Z k)%Q <$> seqZ a (Z.of_nat (length (delays tr)))
    /\ Forall (fun e => is_Exception e = true) (failures tr)
    /\ (forall v, o = Returns v -> S (length (failures tr)) = invocations tr).
Proof.
  revert a last_exc w. induction n as [|n IH]; intros a last_exc w Ha o tr w'.
  { cbn. intros [= <- <- <-]. split_and!; try done; try constructor.
    intros v Hv. by destruct last_exc. }
  rewrite seqZ_cons by lia. cbn [retry_loop].
  replace (Z.pred (Z.of_nat (S n))) with (Z.of_nat n) by lia.
  destruct (func w) as [[v|e] w1].
  { intros [= <- <- <-]. split_and!; try done. cbn. lia. }
  destruct (is_Exception e) eqn:He.
  2: { intros [= <- <- <-]. split_and!; try done. cbn. lia. }
  destruct (a <? max_attempts) eqn:Hlt.
  - destruct (retry_loop _ _ _ _ _ _ _) as [[o1 tr1] w2] eqn:Hrec.
    intros [= <- <- <-].
    destruct (IH (Z.succ a) _ _ ltac:(lia) _ _ _ Hrec)
      as (Hle & Hpos & Hlen & Hd & Hf & Hret).
    assert (Hn : n <> 0%nat) by lia. specialize (Hpos Hn).
    unfold invocations, delays, failures in *. cbn.
    split_and!; [lia | done | lia | | by constructor | ].
    + rewrite seqZ_cons by lia. cbn. f_equal.
      rewrite Hd at 1. f_equal. f_equal. lia.
    + intros v Hv. by rewrite <- (Hret v Hv).
  - assert (n = 0%nat) by lia. subst n. cbn.
    intros [= <- <- <-]. unfold invocations, delays, failures. cbn.
    split_and!; try done; by repeat constructor.
Qed.

(** X1: whatever the operation does, the wrapper invokes it at most
    [max_attempts] times, pauses once between two invocations and never
    after the last one, the k-th pause being [delay * k], and every failure
    it logged and retried is an [Exception]; when it returns a value, all
    the invocations before the last one failed. *)
Theorem retry_trace_shape (w : W) :
  let '(o, tr, w') := retry sleep max_attempts delay func w in
  (invocations tr <= Z.to_nat max_attempts)%nat
  /\ length (delays tr) = (invocations tr - 1)%nat
  /\ delays tr
     = (fun k => delay * inject_Z k)%Q <$> seqZ 1 (Z.of_nat (length (delays tr)))
  /\ Forall (fun e => is_Exception e = true) (failures tr)
  /\ (forall v, o = Returns v -> S (length (failures tr)) = invocations tr).
Proof.
  unfold retry, wrapper, range.
  destruct (retry_loop _ _ _ _ _ _ _) as [[o tr] w'] eqn:Hrun.
  destruct (decide (0 <= max_attempts)) as [Hmax|Hmax].
  - replace (max_attempts + 1 - 1) with (Z.of_nat (Z.to_nat max_attempts)) in Hrun by lia.
    destruct (retry_loop_shape (Z.to_nat max_attempts) 1 None w ltac:(lia) _ _ _ Hrun)
      as (Hle & _ & Hlen & Hd & Hf & Hret).
    done.
  - replace (seqZ 1 (max_attempts + 1 - 1)) with (@nil Z) in Hrun.
    + cbn in Hrun. injection Hrun as <- <- <-. cbn. split_and!; try done. lia.
    + unfold seqZ. by replace (Z.to_nat (max_attempts + 1 - 1)) with 0%nat by lia.
Qed.

(** X2: with [max_attempts] zero or negative the loop body never runs: the
    operation is not invoked, the world is untouched, and [raise last_exc]
    with [last_exc] still [None] is a [TypeError]. *)
Theorem retry_without_attempts (w : W) :
  max_attempts <= 0 ->
  retry sleep max_attempts delay func w
  = (Raises (TypeError (lit "exceptions must derive from BaseException")), [], w).
Proof.
  intros Hmax. unfold retry, wrapper, range, seqZ.
  by replace (Z.to_nat (max_attempts + 1 - 1)) with 0%nat by lia.
Qed.
End retry_shape.

(** ** [helpers.launch_browser_with_fallback] on any engines *)

Section acquisition_shape.
Context `{CharTables}.

Lemma attempt_passes (E : engine_env) (h : handles) :
  attempt E = (h, None) ->
  h = all_handles
  /\ launch E = None /\ new_context E = None /\ new_page E = None
  /\ add_init_script E = None /\ wait_for_timeout E = None /\ goto E = None
  /\ exists t b, title E = Returns t /\ text_content E = Returns b
                 /\ classify t b = OK.
Proof.
  unfold attempt, classify.
  destruct (launch E); [done|]. destruct (new_context E); [done|].
  destruct (new_page E); [done|]. destruct (add_init_script E); [done|].
  destruct (wait_for_timeout E); [done|]. destruct (goto E); [done|].
  destruct (title E) as [t|]; [|done]. destruct (text_content E) as [b|]; [|done].
  intros [= <- Hcheck]. split_and!; try done. exists t, b. by rewrite Hcheck.
Qed.

Lemma created_resources (engine : str) (h : handles) :
  created engine h = (fun r => Created r engine) <$> resources_of h.
Proof. by destruct h as [[] [] []]. Qed.

Lemma closes_resources (engine : str) (h : handles) :
  closes_of engine h = (fun r => Closed r engine) <$> reverse (resources_of h).
Proof. by destruct h as [[] [] []]. Qed.

(** A run of the loop that returns: the engines tried before the result
    each failed with an [Exception] and left a [failed_block]. *)
Lemma launch_loop_returns (p : str -> engine_env) (engines : list str)
    (o : option str) (tr : list launch_event) :
  launch_loop p engines = (Returns o, tr) ->
  exists (failed : list (str * handles * exn)) (rest : list str),
    engines = failed.*1.*1 ++ rest
    /\ Forall (fun '(engine, h, e) =>
                 attempt (p engine) = (h, Some e) /\ is_Exception e = true) failed
    /\ match o with
       | Some engine =>
           exists rest', rest = engine :: rest'
             /\ attempt (p engine) = (all_handles, None)
             /\ tr = flat_map failed_block failed
                     ++ created engine all_handles ++ [Passed engine]
       | None => rest = [] /\ tr = flat_map failed_block failed
       end.
Proof.
  revert tr. induction engines as [|engine engines IH]; intros tr; cbn [launch_loop].
  { intros [= <- <-]. exists [], []. split_and!; try done. }
  destruct (attempt (p engine)) as [h [e|]] eqn:Ha.
  - destruct (is_Exception e) eqn:He; [|done].
    destruct (handler engine (p engine) h) as [closes [e'|]] eqn:Hh; [done|].
    destruct (launch_loop p engines) as [o' tr'] eqn:Hrest.
    intros [= -> <-]. apply handler_closes in Hh as ->.
    destruct (IH _ eq_refl) as (failed & rest & -> & Hfailed & Htail).
    exists ((engine, h, e) :: failed), rest. split; [done|].
    split; [by constructor|].
    cbn [flat_map failed_block]. rewrite created_resources, closes_resources.
    destruct o as [winner|].
    + destruct Htail as (rest' & -> & Hw & ->). exists rest'.
      split_and!; try done. by rewrite <- !app_assoc.
    + destruct Htail as [-> ->]. split; [done|]. by rewrite <- !app_assoc.
  - intros [= <- <-]. apply attempt_passes in Ha as Hp. destruct Hp as [-> _].
    exists [], (engine :: engines). split_and!; try done. by exists engines.
Qed.

(** X3: in every run that returns, with a session or with
    [(None, None)], each engine tried before the result failed with an
    [Exception] and had exactly the handles it had created closed, in the
    reverse order of their creation, before the next engine was launched;
    the engines after the one that passed are never launched, and with no
    session every engine of the list was tried. *)
Theorem no_handle_left_open (p : str -> engine_env) (engines : list str)
    (o : option str) (tr : list launch_event) :
  launch_loop p engines = (Returns o, tr) ->
  exists (failed : list (str * handles * exn)) (rest : list str),
    engines = failed.*1.*1 ++ rest
    /\ Forall (fun '(engine, h, e) =>
                 attempt (p engine) = (h, Some e) /\ is_Exception e = true) failed
    /\ match o with
       | Some engine =>
           exists rest', rest = engine :: rest'
             /\ tr = flat_map failed_block failed
                     ++ [Created Browser engine; Created Context engine;
                         Created Page engine; Passed engine]
       | None => rest = [] /\ tr = flat_map failed_block failed
       end.
Proof.
  intros Hrun. destruct (launch_loop_returns _ _ _ _ Hrun)
    as (failed & rest & Heng & Hfailed & Htail).
  exists failed, rest. split; [done|]. split; [done|].
  destruct o as [engine|]; [|done].
  destruct Htail as (rest' & -> & _ & ->). by exists rest'.
Qed.

(** X4: a session is returned only for an engine of the list whose every
    call returned and whose page was classified OK; its browser, context
    and page are all created and none of them is closed. *)
Theorem session_is_unblocked (p : str -> engine_env) (engines : list str)
    (engine : str) (tr : list launch_event) :
  launch_loop p engines = (Returns (Some engine), tr) ->
  engine ∈ engines
  /\ (exists t b, title (p engine) = Returns t
                  /\ text_content (p engine) = Returns b
                  /\ classify t b = OK)
  /\ (forall r, Created r engine ∈ tr)
  /\ (forall r, Closed r engine ∉ tr).
Proof.
  intros Hrun. destruct (launch_loop_returns _ _ _ _ Hrun)
    as (failed & rest & -> & Hfailed & (rest' & -> & Hpass & ->)).
  apply attempt_passes in Hpass as Hp.
  destruct Hp as (_ & _ & _ & _ & _ & _ & _ & Hok).
  split; [apply elem_of_app; right; left|]. split; [done|]. split.
  - intros r. apply elem_of_app. right. apply list_elem_of_In.
    destruct r; cbn; tauto.
  - intros r Hin. apply elem_of_app in Hin as [Hin|Hin].
    2: { apply list_elem_of_In in Hin. cbn in Hin. intuition discriminate. }
    apply list_elem_of_In, in_flat_map in Hin as ([[bt h] e] & Hf & Hev).
    apply list_elem_of_In in Hf, Hev.
    rewrite Forall_forall in Hfailed. specialize (Hfailed _ Hf). cbn in Hfailed.
    destruct Hfailed as [Hfail _]. unfold failed_block in Hev.
    assert (bt = engine) as ->.
    { apply elem_of_app in Hev as [Hev|Hev].
      - by apply list_elem_of_fmap in Hev as (? & [=] & _).
      - apply elem_of_cons in Hev as [[=]|Hev].
        by apply list_elem_of_fmap in Hev as (? & [= _ ->] & _). }
    congruence.
Qed.
End acquisition_shape.

(** ** The log of [scroll_and_load] *)

Section reveal_log.
Variable height : nat -> Z.

Lemma scroll_loop_log (len n : nat) (prev stable : Z) :
  scroll_loop height (seq n len) prev stable
  = (fun k => (k, height k))
    <$> seq n (length (scroll_loop height (seq n len) prev stable)).
Proof.
  revert n prev stable. induction len as [|len IH]; intros n prev stable; [done|].
  cbn [seq scroll_loop].
  destruct (height n =? prev); [destruct (3 <=? stable + 1)|];
    cbn [length seq fmap list_fmap]; f_equal; try done; apply IH.
Qed.

(** X5: the loop reads the height once per round, in rounds 1, 2, ... up to
    the last round [r] without a gap; it always performs at least three
    rounds; no round before [r] ends three consecutive unchanged rounds,
    and round [r] does unless [r] is the cap of 50. *)
Theorem scroll_log_exact :
  let r := length (scroll_and_load height) in
  scroll_and_load height = (fun k => (k, height k)) <$> seq 1 r
  /\ (3 <= r <= 50)%nat
  /\ (forall k, (k < r)%nat -> (streak height k < 3)%nat)
  /\ ((r < 50)%nat -> streak height r = 3%nat).
Proof.
  intros r. assert (Hr : r = length (scroll_and_load height)) by reflexivity.
  clearbody r. rewrite scroll_and_load_eq in Hr |- *.
  assert (Hcap : (r <= 50)%nat).
  { rewrite Hr. etransitivity; [apply scroll_loop_length|].
    rewrite length_seq. reflexivity. }
  destruct (scroll_loop_stops height max_rounds 1 0 0 ltac:(lia) eq_refl eq_refl
              ltac:(cbn [streak Nat.sub]; lia) r Hr) as [Hstop Hearly].
  unfold max_rounds in Hstop, Hearly.
  assert (Hlast : (r < 50)%nat -> streak height r = 3%nat).
  { intros Hlt. specialize (Hearly Hlt).
    by replace (1 + r - 1)%nat with r in Hearly by lia. }
  split; [rewrite Hr; apply scroll_loop_log|]. split; [|split; [|done]].
  - split; [|done]. destruct (decide (r < 50)%nat) as [Hlt|]; [|lia].
    assert (3 <= streak height r)%nat as H3 by (rewrite Hlast; lia).
    apply streak_three in H3. lia.
  - intros k Hk. destruct (decide (streak height k < 3)%nat) as [|Hge]; [done|].
    destruct (decide (k = 0)%nat) as [->|Hk0]; [cbn in Hge; lia|].
    specialize (Hstop k ltac:(lia) ltac:(lia)). lia.
Qed.
End reveal_log.

(** ** The extraction mappers on any card *)

Lemma drop_while_head (f : N -> bool) (s : str) (c : N) :
  head (drop_while f s) = Some c -> f c = false.
Proof.
  induction s as [|d s IH]; cbn; [done|].
  destruct (f d) eqn:Hd; [done|]. cbn. by intros [= <-].
Qed.

Lemma drop_while_suffix (f : N -> bool) (s : str) :
  exists k, s = k ++ drop_while f s.
Proof.
  induction s as [|d s [k IH]]; cbn; [by exists []|].
  destruct (f d); [|by exists []]. exists (d :: k). by rewrite IH at 1.
Qed.

Lemma strip_with_stripped (f : N -> bool) (s : str) : stripped f (strip_with f s).
Proof.
  unfold stripped, strip_with. split; intros c.
  - rewrite head_reverse.
    destruct (drop_while_suffix f (reverse (drop_while f s))) as [k Hk].
    intros Hlast. apply (drop_while_head f s).
    rewrite <- last_reverse, Hk, last_app, Hlast. done.
  - rewrite last_reverse. apply drop_while_head.
Qed.

Lemma stripped_nil (f : N -> bool) : stripped f [].
Proof. by split. Qed.

Section mapper_facts.
Context `{CharTables}.

Lemma clean_price_filter (text : str) : clean_price text = List.filter isdigit text.
Proof. by destruct text. Qed.

Lemma clean_price_all_digits (text : str) : all_digits isdigit (clean_price text).
Proof.
  rewrite clean_price_filter. apply Forall_forall. intros c Hc.
  by apply list_elem_of_In, filter_In in Hc as [_ ?].
Qed.

(** X6: [clean_price] keeps exactly the digit characters of the text, in
    their order: the result holds digits only, is a subsequence of the
    text, is empty exactly when the text has no digit, and cleaning it
    again changes nothing. *)
Theorem clean_price_digits (text : str) :
  all_digits isdigit (clean_price text)
  /\ sublist (clean_price text) text
  /\ (clean_price text = [] <-> forall c, c ∈ text -> isdigit c = false)
  /\ clean_price (clean_price text) = clean_price text.
Proof.
  split; [apply clean_price_all_digits|].
  rewrite !clean_price_filter. split_and!.
  - induction text as [|c text IH]; cbn; [done|].
    destruct (isdigit c); by constructor.
  - induction text as [|c text IH]; cbn.
    + split; [by intros _ c ?%elem_of_nil|done].
    + destruct (isdigit c) eqn:Hc.
      * split; [done|]. intros Hno. specialize (Hno c ltac:(left)). congruence.
      * rewrite IH. split.
        -- intros Hno d Hd. apply elem_of_cons in Hd as [->|Hd]; auto.
        -- intros Hno d Hd. apply Hno. by right.
  - induction text as [|c text IH]; cbn; [done|].
    destruct (isdigit c) eqn:Hc; [|done]. cbn. by rewrite Hc, IH.
Qed.

(** X7: a record that the Bama loop appends has the eight fields in the
    order of the source; its model is not empty; model, year, mileage and
    description carry no leading or trailing whitespace; its price is not
    empty, all digits when the status is fixed, all digits or the
    negotiable sentinel when the status is negotiable, and the status is
    one of the two; its source_url is empty or starts with http; its
    scrape_date is the day of the run. *)
Theorem bama_record_shape (today : str) (c : bama_card) (r : record) :
  bama_record today c = Some r ->
  exists model year mileage description price price_status source_url,
    r = [(lit "model", model); (lit "year", year); (lit "mileage", mileage);
         (lit "description", description); (lit "price", price);
         (lit "price_status", price_status); (lit "source_url", source_url);
         (lit "scrape_date", today)]
    /\ model <> []
    /\ stripped isspace model /\ stripped isspace year
    /\ stripped isspace mileage /\ stripped isspace description
    /\ price <> []
    /\ ((price_status = lit "fixed" /\ all_digits isdigit price)
        \/ (price_status = lit "negotiable"
            /\ (all_digits isdigit price \/ price = NEGOTIABLE)))
    /\ (source_url = [] \/ startswith source_url (lit "http") = true).
Proof.
  unfold bama_record. destruct (link_elem c) as [[title_attr href_attr]|]; [|done].
  set (url := match href_attr with Some u => _ | None => None end).
  assert (Hurl : default [] url = [] \/ startswith (default [] url) (lit "http") = true).
  { subst url. destruct href_attr as [[|ch u]|]; [by left| |by left].
    cbn [truthy andb]. destruct (startswith (ch :: u) (lit "http")) eqn:Hs; cbn.
    - by right.
    - right. reflexivity. }
  assert (Hyear : stripped isspace
            match year_elem c with Some t => strip t | None => [] end).
  { destruct (year_elem c); [apply strip_with_stripped|apply stripped_nil]. }
  assert (Hdesc : stripped isspace
            match desc_elem c with Some t => strip t | None => [] end).
  { destruct (desc_elem c); [apply strip_with_stripped|apply stripped_nil]. }
  destruct (price_elem c) as [price_raw|].
  - destruct (truthy _ && _) eqn:Hkeep; [|done]. intros [= <-].
    apply andb_true_iff in Hkeep as [Hmodel Hprice].
    apply truthy_nonempty in Hmodel. rewrite orb_false_r in Hprice.
    apply truthy_nonempty in Hprice.
    eexists _, _, _, _, _, _, _. split; [reflexivity|].
    split_and!; try done; try apply strip_with_stripped.
    left. split; [done|]. apply clean_price_all_digits.
  - destruct (negotiable_elem c) as [price_raw|]; [|done].
    destruct (truthy _ && _) eqn:Hkeep; [|done]. intros [= <-].
    apply andb_true_iff in Hkeep as [Hmodel _]. apply truthy_nonempty in Hmodel.
    eexists _, _, _, _, _, _, _. split; [reflexivity|].
    split_and!; try done; try apply strip_with_stripped.
    + unfold or_else. destruct (truthy (clean_price price_raw)) eqn:Ht;
        [by apply truthy_nonempty|done].
    + right. split; [done|]. unfold or_else.
      destruct (truthy (clean_price price_raw)); [left|by right].
      apply clean_price_all_digits.
Qed.

Lemma bama_extract_acc (today : str) (cards : list card_result)
    (all_data : list record) :
  (forall e, CardRaises e ∈ cards -> is_Exception e = true) ->
  bama_extract today cards all_data
  = Returns (all_data ++ omap (card_record today) cards).
Proof.
  revert all_data. induction cards as [|[c|e] cards IH]; intros all_data Hexc; cbn.
  - by rewrite app_nil_r.
  - rewrite IH by (intros e He; apply Hexc; by right).
    rewrite <- app_assoc. by destruct (bama_record today c).
  - rewrite (Hexc e) by left. apply IH. intros e' He'. apply Hexc. by right.
Qed.

(** X8: a card on which a call raises an [Exception] costs that card
    only: when no card raises anything else, the loop goes through all the
    cards and the batch holds, in the order of the cards, the record of
    every card that yields one, so it has at most as many records as there
    are cards. *)
Theorem bama_extract_skips (today : str) (cards : list card_result) :
  (forall e, CardRaises e ∈ cards -> is_Exception e = true) ->
  bama_extract today cards [] = Returns (omap (card_record today) cards)
  /\ (length (omap (card_record today) cards) <= length cards)%nat.
Proof.
  intros Hexc. split; [by rewrite bama_extract_acc|].
  induction cards as [|cr cards IH]; cbn; [done|].
  specialize (IH ltac:(intros e He; apply Hexc; by right)).
  destruct (card_record today cr); cbn; lia.
Qed.

Lemma or_else_digits (s : str) :
  or_else (js_digits s) NEGOTIABLE <> []
  /\ (all_digits ascii_isdigit (or_else (js_digits s) NEGOTIABLE)
      \/ or_else (js_digits s) NEGOTIABLE = NEGOTIABLE).
Proof.
  unfold or_else. destruct (truthy (js_digits s)) eqn:Ht.
  - split; [by apply truthy_nonempty|]. left. unfold js_digits.
    apply Forall_forall. intros c Hc.
    by apply list_elem_of_In, filter_In in Hc as [_ ?].
  - split; [done|by right].
Qed.

(** X9: a Divar card yields a record exactly when it has a title element
    and at least two description elements; the record then has the five
    fields model, mileage, price, source_url and scrape_date in that
    order, model and mileage trimmed, a price that is never empty, all
    ASCII digits or the negotiable sentinel, the listing page as
    source_url and the day of the run; the batch has at most as many
    records as there are cards. *)
Theorem divar_record_shape (today : str) (cards : list divar_card) :
  (forall c, divar_item c = None
             <-> card_title c = None \/ (length (descs c) < 2)%nat)
  /\ (length (divar_extract today cards) <= length cards)%nat
  /\ forall r, r ∈ divar_extract today cards ->
       exists model mileage price,
         r = [(lit "model", model); (lit "mileage", mileage);
              (lit "price", price); (lit "source_url", DIVAR_URL);
              (lit "scrape_date", today)]
         /\ stripped js_isspace model /\ stripped js_isspace mileage
         /\ price <> []
         /\ (all_digits ascii_isdigit price \/ price = NEGOTIABLE).
Proof.
  split_and!.
  - intros c. unfold divar_item.
    destruct (card_title c) as [t|]; [|by split; [left|]].
    destruct (descs c) as [|d0 [|d1 ds]]; cbn.
    + split; [right; lia|done].
    + split; [right; lia|done].
    + split; [done|]. intros [?|?]; [done|lia].
  - unfold divar_extract. rewrite length_fmap.
    induction cards as [|c cards IH]; cbn; [done|].
    destruct (divar_item c); cbn; lia.
  - unfold divar_extract. intros r (item & -> & Hitem)%list_elem_of_fmap.
    apply list_elem_of_omap in Hitem as (c & _ & Hc). unfold divar_item in Hc.
    destruct (card_title c) as [t|]; [|done].
    destruct (descs c) as [|d0 [|d1 ds]]; try done. injection Hc as <-.
    eexists _, _, _. split; [reflexivity|].
    split_and!; try apply strip_with_stripped; apply or_else_digits.
Qed.
End mapper_facts.

(** ** [helpers.save_to_csv] on any batch *)

Section keep_first_more.
Context {A K : Type} `{EqDecision K} (key : A -> K).

Lemma keep_first_length (seen : list K) (l : list A) :
  (length (keep_first key seen l) <= length l)%nat.
Proof.
  revert seen. induction l as [|x l IH]; intros seen; cbn; [done|].
  case_decide; cbn; [specialize (IH seen)|specialize (IH (key x :: seen))]; lia.
Qed.

(** Only the members of [seen] matter. *)
Lemma keep_first_seen (seen seen' : list K) (l : list A) :
  (forall k, k ∈ seen <-> k ∈ seen') ->
  keep_first key seen l = keep_first key seen' l.
Proof.
  revert seen seen'. induction l as [|x l IH]; intros seen seen' Hs; cbn; [done|].
  destruct (decide (key x ∈ seen)) as [Hin|Hin].
  - rewrite decide_True by (by apply Hs). by apply IH.
  - rewrite decide_False by (by rewrite <- Hs). f_equal. apply IH.
    intros k. rewrite !elem_of_cons, Hs. done.
Qed.

Lemma keep_first_app (seen : list K) (l1 l2 : list A) :
  keep_first key seen (l1 ++ l2)
  = keep_first key seen l1 ++ keep_first key ((key <$> l1) ++ seen) l2.
Proof.
  revert seen. induction l1 as [|x l1 IH]; intros seen; cbn; [done|].
  destruct (decide (key x ∈ seen)) as [Hin|Hin].
  - rewrite IH. f_equal. apply keep_first_seen. intros k.
    rewrite elem_of_cons, !elem_of_app. split; [tauto|]. intros [->|?]; tauto.
  - cbn. f_equal. rewrite IH. f_equal. apply keep_first_seen. intros k.
    rewrite !elem_of_app, !elem_of_cons, elem_of_app. tauto.
Qed.

Lemma keep_first_all_seen (seen : list K) (l : list A) :
  (forall x, x ∈ l -> key x ∈ seen) -> keep_first key seen l = [].
Proof.
  induction l as [|x l IH]; intros Hall; cbn; [done|].
  rewrite decide_True by (apply Hall; left). apply IH. intros y Hy. apply Hall. by right.
Qed.

Lemma keep_first_all_new (seen : list K) (l : list A) :
  NoDup (key <$> l) -> (forall x, x ∈ l -> key x ∉ seen) ->
  keep_first key seen l = l.
Proof.
  revert seen. induction l as [|x l IH]; intros seen Hnd Hnew; cbn; [done|].
  rewrite fmap_cons in Hnd. apply NoDup_cons in Hnd as [Hx Hnd].
  rewrite decide_False by (apply Hnew; left). f_equal. apply IH; [done|].
  intros y Hy [Hk|Hk]%elem_of_cons.
  - apply Hx. rewrite <- Hk. apply list_elem_of_fmap. eauto.
  - by apply (Hnew y); [right|].
Qed.
End keep_first_more.


(** X11: the file of a call that returns a path is a well-formed table that
    loses no listing: its header has no duplicate and lists exactly the
    keys that occur in the batch; every row has one field per header
    column; it has at most as many rows as the batch has records; every
    row comes from a record of the batch, no two rows share a dedup key,
    and every record of the batch has a row with its dedup key; the
    encoding is utf-8-sig. *)
Theorem saved_file_well_formed
    (data : list record) (prefix output_dir today : str) (fs : file_system)
    (path : str) :
  (save_to_csv data prefix output_dir today fs).1 = Returns (Some path) ->
  exists df f,
    deduplicated data = Returns df
    /\ f = to_csv df (lit "utf-8-sig")
    /\ files (save_to_csv data prefix output_dir today fs).2 !! path = Some f
    /\ encoding f = lit "utf-8-sig"
    /\ NoDup (header f)
    /\ (forall c, c ∈ header f <-> exists r, r ∈ data /\ c ∈ r.*1)
    /\ Forall (fun row => length row = length (header f)) (body f)
    /\ (length (body f) <= length data)%nat
    /\ (forall r, r ∈ rows df -> r ∈ data)
    /\ NoDup (cells DEDUP_KEY <$> rows df)
    /\ (forall r, r ∈ data ->
          exists r', r' ∈ rows df /\ cells DEDUP_KEY r' = cells DEDUP_KEY r).
Proof.
  destruct data as [|r0 data]; [done|].
  destruct (deduplicated (r0 :: data)) as [df|e] eqn:Hd.
  2: { by rewrite (save_to_csv_raises _ _ _ _ _ e). }
  rewrite (save_to_csv_returns _ _ _ _ _ df) by done. cbn [fst snd].
  intros [= <-]. exists df, (to_csv df (lit "utf-8-sig")).
  apply deduplicated_returns in Hd as Hdf; [|done].
  destruct Hdf as (Hcols & Hperm & _ & _ & _).
  rewrite saved_files, decide_True by auto.
  unfold to_csv. cbn [header body encoding]. split_and!; try done.
  - rewrite Hcols. unfold DataFrame. cbn [columns].
    rewrite <- (list_fmap_id (keep_first id [] _)). apply keep_first_NoDup.
  - intros c. rewrite Hcols. apply DataFrame_columns.
  - apply Forall_forall. intros row (r & -> & _)%list_elem_of_fmap.
    by rewrite length_fmap.
  - rewrite length_fmap, Hperm. apply keep_first_length.
  - intros r. rewrite Hperm. apply keep_first_id_elem.
  - rewrite Hperm. apply keep_first_NoDup.
  - intros r Hr.
    destruct (keep_first_first (cells DEDUP_KEY) [] (r0 :: data) (cells DEDUP_KEY r))
      as (_ & x & _ & _ & Hx & _ & Hkept).
    { by intros ?%elem_of_nil. }
    { apply list_elem_of_fmap. eauto. }
    exists x. by rewrite Hperm.
Qed.

(** The columns of a batch whose records all have the same keys. *)
Lemma DataFrame_uniform (fields : list str) (data : list record) :
  NoDup fields -> data <> [] ->
  (forall r, r ∈ data -> r.*1 = fields) ->
  columns (DataFrame data) = fields.
Proof.
  intros Hnd Hne Hkeys. unfold DataFrame. cbn [columns].
  destruct data as [|r data]; [done|]. cbn [map concat].
  change (map fst r) with (r.*1). rewrite (Hkeys r) by left.
  rewrite keep_first_app, (keep_first_all_new id), keep_first_all_seen.
  - by rewrite app_nil_r.
  - intros c Hc. apply elem_of_app. left. rewrite list_fmap_id.
    apply list_elem_of_In, in_concat in Hc as (keys & Hin & Hc).
    apply in_map_iff in Hin as (r' & <- & Hr').
    change (map fst r') with (r'.*1) in Hc.
    rewrite (Hkeys r') in Hc by (right; by apply list_elem_of_In).
    by apply list_elem_of_In.
  - by rewrite list_fmap_id.
  - intros c _ Hc. by apply elem_of_nil in Hc.
Qed.

Section bama_saves.
Context `{CharTables}.

Lemma bama_record_fields (today : str) (c : bama_card) (r : record) :
  bama_record today c = Some r -> r.*1 = BAMA_FIELDS.
Proof.
  unfold bama_record. destruct (link_elem c) as [[title_attr href_attr]|]; [|done].
  destruct (match price_elem c with Some _ => _ | None => _ end)
    as [[price price_status]|]; [|done].
  destruct (truthy _ && _); [|done]. by intros [= <-].
Qed.

Lemma bama_batch_fields (today : str) (cards : list card_result)
    (batch : list record) (r : record) :
  bama_extract today cards [] = Returns batch -> r ∈ batch -> r.*1 = BAMA_FIELDS.
Proof.
  intros Hb Hr. destruct (bama_extract_elem _ _ _ _ _ Hb Hr) as [Hin|(c & _ & Hrec)];
    [by apply elem_of_nil in Hin|].
  by apply bama_record_fields in Hrec.
Qed.

Lemma BAMA_FIELDS_NoDup : NoDup BAMA_FIELDS.
Proof. apply (bool_decide_unpack (NoDup BAMA_FIELDS)). by vm_compute. Qed.

(** X12: a non-empty batch of the Bama mapper is always saved: line 74 does
    not raise, the call returns [output/bama_<day>.csv], and the header of
    the file is the eight field names in the order of the source. *)
Theorem bama_batch_saves (today : str) (cards : list card_result)
    (batch : list record) (fs : file_system) :
  bama_extract today cards [] = Returns batch ->
  batch <> [] ->
  exists df,
    save_batch batch (lit "bama") today fs
    = (Returns (Some (lit "output/bama_" ++ today ++ lit ".csv")),
       saved df (lit "bama") (lit "output") today fs)
    /\ deduplicated batch = Returns df
    /\ header (to_csv df (lit "utf-8-sig")) = BAMA_FIELDS
    /\ rows df <> [].
Proof.
  intros Hb Hne.
  assert (exists r, r ∈ batch) as [r Hr].
  { destruct batch as [|r rest]; [done|]. exists r. left. }
  assert (Hfields : forall r', r' ∈ batch -> r'.*1 = BAMA_FIELDS).
  { intros r'. by apply (bama_batch_fields today cards). }
  destruct (deduplicated_with_key batch r Hr) as [df Hd].
  { intros c Hc. destruct (dict_get c r) eqn:Hget; [done|].
    apply dict_get_None in Hget. rewrite (Hfields r Hr) in Hget. destruct Hget.
    unfold DEDUP_KEY in Hc. unfold BAMA_FIELDS.
    repeat (apply elem_of_cons in Hc as [->|Hc];
            [apply list_elem_of_In; cbn; tauto|]).
    by apply elem_of_nil in Hc. }
  exists df. unfold save_batch. rewrite bool_decide_false by done.
  rewrite (save_to_csv_returns _ _ _ _ _ df) by done.
  split; [done|]. split; [done|].
  apply deduplicated_returns in Hd as (Hcols & Hperm & _); [|done]. split.
  - unfold to_csv. cbn [header]. rewrite Hcols.
    apply DataFrame_uniform; [apply BAMA_FIELDS_NoDup|done|done].
  - intros Hrows. rewrite Hrows in Hperm. symmetry in Hperm.
    apply Permutation_nil_r in Hperm.
    destruct (keep_first_first (cells DEDUP_KEY) [] batch (cells DEDUP_KEY r))
      as (_ & x & _ & _ & _ & _ & Hkept).
    { by intros ?%elem_of_nil. }
    { apply list_elem_of_fmap. eauto. }
    rewrite Hperm in Hkept. by apply elem_of_nil in Hkept.
Qed.
End bama_saves.

(** ** The two scrapers as wholes *)

Section scraper_facts.
Context `{CharTables}.

Lemma guarded_raises (body : list record * option exn * file_system)
    (close : option exn) (e : exn) (evs : list scrape_event) (fs : file_system) :
  guarded body close = (Raised e, evs, fs) ->
  close = Some e
  \/ (exists all_data, body = (all_data, Some e, fs) /\ is_Exception e = false).
Proof.
  destruct body as [[all_data [e0|]] fs0]; cbn.
  - destruct (is_Exception e0) eqn:He0; destruct close; intros [= <- <- <-]; eauto.
  - destruct close; intros [= <- <- <-]; eauto.
Qed.

Lemma leave_raises (stop : option exn) (exit : block_exit)
    (evs evs' : list scrape_event) (fs fs' : file_system) (e : exn) :
  leave stop (exit, evs, fs) = (Raises e, evs', fs') ->
  fs' = fs /\ (stop = Some e \/ exit = Raised e).
Proof.
  cbn. destruct stop; [intros [= <- <- <-]; eauto|].
  destruct exit; intros [= <- <- <-]; eauto.
Qed.

(** X13: [bama_scraper.scrape] lets an exception out, so that the
    decorator can retry, only in these cases: entering or leaving
    [async_playwright()] raised it, the session acquisition raised it,
    closing the browser in the [finally] raised it, or it is not an
    [Exception] and was raised inside the [try]. An [Exception] of the
    navigation, the scrolling, the extraction or the saving never leaves
    the function. *)
Theorem bama_scrape_raises_only (E : bama_env) (fs : file_system)
    (e : exn) (evs : list scrape_event) (fs' : file_system) :
  bama_scrape_body E fs = (Raises e, evs, fs') ->
  bama_start E = Some e
  \/ bama_stop E = Some e
  \/ (launch_browser_with_fallback (bama_p E)).1 = Raises e
  \/ ((exists engine,
          (launch_browser_with_fallback (bama_p E)).1 = Returns (Some engine))
      /\ (bama_close E = Some e
          \/ (is_Exception e = false
              /\ exists all_data, bama_try E fs = (all_data, Some e, fs')))).
Proof.
  unfold bama_scrape_body. destruct (bama_start E) as [e0|].
  { intros [= <- <- <-]. by left. }
  destruct (launch_browser_with_fallback (bama_p E)) as [session ltr]. cbn [fst].
  destruct session as [[engine|]|e1].
  - destruct (guarded (bama_try E fs) (bama_close E)) as [[exit evs1] fs1] eqn:Hg.
    intros [-> [Hs| ->]]%leave_raises; [by right; left|].
    right. right. right. split; [eauto|].
    apply guarded_raises in Hg as [Hc|(all_data & Hb & He)]; [by left|right].
    split; [done|]. eauto.
  - intros [_ [Hs|[=]]]%leave_raises. by right; left.
  - intros [_ [Hs|[= ->]]]%leave_raises; [by right; left|]. by right; right; left.
Qed.






End scraper_facts.

(** ** The runners *)

Section runner_facts.
Context {W : Type}.

(** X16: [cli_menu.run_all] awaits every scraper of the list once, in
    order, each on the world the one before left, and returns normally
    whatever [Exception]s they raise; [scheduler.daily_job] and
    [run_all.main] have no such guard: when the Bama scrape raises, the
    Divar scrape is not started and the failure leaves the job. *)
Theorem run_all_isolates_failures
    (scrapers : list (W -> outcome unit * W)) (w : W) :
  (forall s w0 e, s ∈ scrapers -> (s w0).1 = Raises e -> is_Exception e = true) ->
  run_all scrapers w = (Returns tt, foldl (fun w0 s => (s w0).2) w scrapers)
  /\ forall (scrape_bama scrape_divar : W -> outcome unit * W) e,
       (scrape_bama w).1 = Raises e ->
       daily_job scrape_bama scrape_divar w = (Raises e, (scrape_bama w).2).
Proof.
  intros Hexc. split.
  - revert w. induction scrapers as [|s rest IH]; intros w; [done|].
    cbn [run_all foldl]. unfold run_scraper.
    pose proof (Hexc s w) as Hs. destruct (s w) as [[[]|e] w1]; cbn in Hs |- *.
    + apply IH. intros s' w0 e' Hin. apply Hexc. by right.
    + rewrite (Hs e) by (by try left). apply IH.
      intros s' w0 e' Hin. apply Hexc. by right.
  - intros scrape_bama scrape_divar e Hb. unfold daily_job.
    destruct (scrape_bama w) as [o w1]. cbn in Hb. by subst o.
Qed.
End runner_facts.

Lemma datetime_ltb_micros (a b : datetime) :
  valid_time a -> valid_time b ->
  datetime_ltb a b = true <-> micros a < micros b.
Proof.
  unfold valid_time, datetime_ltb, micros.
  destruct a as [d h m s u], b as [d' h' m' s' u']. cbn.
  intros (Hh & Hm & Hs & Hu) (Hh' & Hm' & Hs' & Hu').
  repeat (rewrite orb_true_iff || rewrite andb_true_iff).
  rewrite !Z.ltb_lt, !Z.eqb_eq. split; [lia|]. intros Hlt.
  destruct (Z.lt_trichotomy d d') as [?|[->|?]]; [by left| |lia].
  right. split; [done|].
  destruct (Z.lt_trichotomy h h') as [?|[->|?]]; [by left| |lia].
  right. split; [done|].
  destruct (Z.lt_trichotomy m m') as [?|[->|?]]; [by left| |lia].
  right. split; [done|].
  destruct (Z.lt_trichotomy s s') as [?|[->|?]]; [by left| |lia].
  right. split; [done|]. lia.
Qed.

(** X17: when both readings of the clock fall on the same day, the run
    that [scheduler.main] announces is at 02:00:00 sharp, today or
    tomorrow, not before the second reading and less than a day after
    it. *)
Theorem next_run_is_ahead (now1 now2 : datetime) :
  valid_time now2 ->
  ordinal now2 = ordinal now1 ->
  let next := next_run now1 now2 in
  hour next = 2 /\ minute next = 0 /\ second next = 0 /\ microsecond next = 0
  /\ (ordinal next = ordinal now1 \/ ordinal next = ordinal now1 + 1)
  /\ micros now2 <= micros next < micros now2 + 24 * 60 * 60 * 1000000.
Proof.
  intros Hvalid Hday next. subst next.
  unfold next_run, DAILY_RUN_HOUR, DAILY_RUN_MINUTE. cbn zeta.
  set (planned := {| ordinal := ordinal now1; hour := 2; minute := 0;
                     second := 0; microsecond := 0 |}).
  assert (Hplanned : valid_time planned) by (unfold valid_time, planned; cbn; lia).
  pose proof (datetime_ltb_micros planned now2 Hplanned Hvalid) as Hlt.
  destruct Hvalid as (Hh & Hm & Hs & Hu).
  destruct (datetime_ltb planned now2); unfold micros, planned in *; cbn in *.
  - assert (Hm2 := proj1 Hlt eq_refl). split_and!; try done; lia.
  - assert (Hm2 : ~ (((ordinal now1 * 24 + 2) * 60 + 0) * 60 + 0) * 1000000 + 0
                    < (((ordinal now2 * 24 + hour now2) * 60 + minute now2) * 60
                       + second now2) * 1000000 + microsecond now2).
    { intros Hc. by apply Hlt in Hc. }
    split_and!; try done; lia.
Qed.

(** ** The further properties at concrete inputs *)

(** [flaky] under three attempts. *)
Lemma retry_trace_shape_witness :
  let '(o, tr, w') := retry no_effect 3 3%Q flaky 0%nat in
  (invocations tr <= Z.to_nat 3)%nat
  /\ length (delays tr) = (invocations tr - 1)%nat
  /\ delays tr
     = (fun k => 3 * inject_Z k)%Q <$> seqZ 1 (Z.of_nat (length (delays tr)))
  /\ Forall (fun e => is_Exception e = true) (failures tr)
  /\ (forall v, o = Returns v -> S (length (failures tr)) = invocations tr).
Proof. exact (retry_trace_shape no_effect 3 3%Q flaky 0%nat). Defined.

(** [flaky] under no attempt at all. *)
Lemma retry_without_attempts_witness :
  retry no_effect 0 3%Q flaky 0%nat
  = (Raises (TypeError (lit "exceptions must derive from BaseException")), [], 0%nat).
Proof. apply (retry_without_attempts no_effect 0 3%Q flaky 0%nat). lia. Defined.

(** Both engines on a challenge page. *)
Lemma no_handle_left_open_witness :
  exists (failed : list (str * handles * exn)) (rest : list str),
    BROWSER_FALLBACK = failed.*1.*1 ++ rest
    /\ Forall (fun '(engine, h, e) =>
                 @attempt ascii_tables (challenge_page None) = (h, Some e)
                 /\ is_Exception e = true) failed
    /\ rest = []
    /\ (@launch_loop ascii_tables (fun _ => challenge_page None) BROWSER_FALLBACK).2
       = flat_map failed_block failed.
Proof.
  apply (@no_handle_left_open ascii_tables (fun _ => challenge_page None)
           BROWSER_FALLBACK None).
  reflexivity.
Defined.

(** Chromium lands on an ordinary page. *)
Lemma session_is_unblocked_witness :
  lit "chromium" ∈ BROWSER_FALLBACK
  /\ (exists t b, title (landing (lit "Bama") (lit "cars") None) = Returns t
                  /\ text_content (landing (lit "Bama") (lit "cars") None) = Returns b
                  /\ @classify ascii_tables t b = OK)
  /\ (forall r, Created r (lit "chromium")
                ∈ (@launch_loop ascii_tables
                     (fun _ => landing (lit "Bama") (lit "cars") None)
                     BROWSER_FALLBACK).2)
  /\ (forall r, Closed r (lit "chromium")
                ∉ (@launch_loop ascii_tables
                     (fun _ => landing (lit "Bama") (lit "cars") None)
                     BROWSER_FALLBACK).2).
Proof.
  apply (@session_is_unblocked ascii_tables
           (fun _ => landing (lit "Bama") (lit "cars") None) BROWSER_FALLBACK).
  reflexivity.
Defined.

(** A page whose height stays at 844. *)
Lemma scroll_log_exact_witness :
  let r := length (scroll_and_load (fun _ => 844%Z)) in
  scroll_and_load (fun _ => 844%Z) = (fun k => (k, 844%Z)) <$> seq 1 r
  /\ (3 <= r <= 50)%nat
  /\ (forall k, (k < r)%nat -> (streak (fun _ => 844%Z) k < 3)%nat)
  /\ ((r < 50)%nat -> streak (fun _ => 844%Z) r = 3%nat).
Proof. exact (scroll_log_exact (fun _ => 844%Z)). Defined.

Lemma bama_record_shape_witness :
  exists model year mileage description price price_status source_url,
    default [] (head peugeot_batch)
    = [(lit "model", model); (lit "year", year); (lit "mileage", mileage);
       (lit "description", description); (lit "price", price);
       (lit "price_status", price_status); (lit "source_url", source_url);
       (lit "scrape_date", day)]
    /\ model <> [] /\ price <> []
    /\ (source_url = [] \/ startswith source_url (lit "http") = true).
Proof.
  destruct (@bama_record_shape ascii_tables day peugeot_card
              (default [] (head peugeot_batch)) eq_refl)
    as (model & year & mileage & description & price & status & url
        & Hr & Hm & _ & _ & _ & _ & Hp & _ & Hu).
  by exists model, year, mileage, description, price, status, url.
Defined.

(** A good card followed by one on which a query raises. *)
Lemma bama_extract_skips_witness :
  @bama_extract ascii_tables day [Card peugeot_card; detached_card] []
  = Returns (omap (@card_record ascii_tables day) [Card peugeot_card; detached_card])
  /\ (length (omap (@card_record ascii_tables day) [Card peugeot_card; detached_card])
      <= length [Card peugeot_card; detached_card])%nat.
Proof.
  apply (@bama_extract_skips ascii_tables day [Card peugeot_card; detached_card]).
  intros e He. apply elem_of_cons in He as [[=]|He].
  apply list_elem_of_singleton in He. injection He as ->. reflexivity.
Defined.

Lemma divar_record_shape_witness :
  exists model mileage price,
    default [] (head (@divar_extract ascii_tables day [pride_card]))
    = [(lit "model", model); (lit "mileage", mileage); (lit "price", price);
       (lit "source_url", DIVAR_URL); (lit "scrape_date", day)]
    /\ price <> [].
Proof.
  destruct (proj2 (proj2 (@divar_record_shape ascii_tables day [pride_card]))
              (default [] (head (@divar_extract ascii_tables day [pride_card]))))
    as (model & mileage & price & Hr & _ & _ & Hp & _).
  { left. }
  by exists model, mileage, price.
Defined.


Lemma saved_file_well_formed_witness :
  exists df f,
    deduplicated [peugeot; peugeot_again] = Returns df
    /\ f = to_csv df (lit "utf-8-sig")
    /\ NoDup (header f)
    /\ Forall (fun row => length row = length (header f)) (body f)
    /\ (length (body f) <= 2)%nat.
Proof.
  destruct (saved_file_well_formed [peugeot; peugeot_again] (lit "bama")
              (lit "output") day no_files (lit "output/bama_2025-11-10.csv"))
    as (df & f & Hd & Hf & _ & _ & Hnd & _ & Hrows & Hlen & _).
  - reflexivity.
  - by exists df, f.
Defined.

Lemma bama_batch_saves_witness :
  exists df,
    save_batch peugeot_batch (lit "bama") day no_files
    = (Returns (Some (lit "output/bama_" ++ day ++ lit ".csv")),
       saved df (lit "bama") (lit "output") day no_files)
    /\ deduplicated peugeot_batch = Returns df
    /\ header (to_csv df (lit "utf-8-sig")) = BAMA_FIELDS
    /\ rows df <> [].
Proof.
  apply (@bama_batch_saves ascii_tables day [Card peugeot_card]);
    [reflexivity | discriminate].
Defined.

(** The close of the [finally] raises: that is what leaves the function. *)
Lemma bama_scrape_raises_only_witness :
  bama_close bama_close_fails = Some (Error (lit "Target closed"))
  /\ (@bama_scrape_body ascii_tables bama_close_fails no_files).1.1
     = Raises (Error (lit "Target closed")).
Proof.
  destruct (@bama_scrape_body ascii_tables bama_close_fails no_files)
    as [[o evs] fs'] eqn:Hrun.
  assert (Ho : o = Raises (Error (lit "Target closed"))).
  { by vm_compute in Hrun; injection Hrun as <- _ _. }
  subst o. split; [reflexivity|].
  destruct (@bama_scrape_raises_only ascii_tables bama_close_fails no_files _ _ _ Hrun)
    as [Hs|[Hs|[Hs|[_ _]]]]; [discriminate Hs | discriminate Hs | | reflexivity].
  vm_compute in Hs. discriminate Hs.
Defined.



(** A scraper that cannot be imported, then one that runs. *)
Lemma run_all_isolates_failures_witness :
  run_all [crashing_scraper; quiet_scraper] 0%nat = (Returns tt, 2%nat).
Proof.
  apply (proj1 (run_all_isolates_failures [crashing_scraper; quiet_scraper] 0%nat
    ltac:(intros s w0 e Hs He;
          apply elem_of_cons in Hs as [->|Hs];
          [injection He as <-; reflexivity|];
          apply list_elem_of_singleton in Hs; subst s; discriminate He))).
Defined.

Lemma next_run_is_ahead_witness :
  let next := next_run afternoon afternoon in
  hour next = 2 /\ minute next = 0 /\ second next = 0 /\ microsecond next = 0
  /\ (ordinal next = ordinal afternoon \/ ordinal next = ordinal afternoon + 1)
  /\ micros afternoon <= micros next < micros afternoon + 24 * 60 * 60 * 1000000.
Proof.
  apply (next_run_is_ahead afternoon afternoon); [|reflexivity].
  unfold valid_time, afternoon. cbn. lia.
Defined.
